(** * Liar's Dice session engine: a shallow embedding of [src/pages/api/socket.ts]

    The server keeps a registry [games] of sessions, mutates a session in
    place in each socket handler, emits events and schedules timers
    ([setTimeout]).  The embedding keeps that shape:

    - the registry is a [gmap string Game];
    - a handler is a function from the registry (and the payload of the
      command) to an [Outcome]: the new registry, the events emitted and the
      timers scheduled;
    - [Math.random] is an input: a stream of draws threaded through the
      handlers in the order the source consumes it;
    - JavaScript numbers that hold integers ([count], [value], [diceCount],
      dice) are [Z]; the probability estimate of the computer player is
      computed on binary64 floats, as in the source. *)

From Stdlib Require Import ZArith Floats Uint63.
From stdpp Require Import gmap strings list fin_maps.

#[local] Set Warnings "-inexact-float".
#[local] Open Scope Z_scope.

(** ** Data model (interfaces [Player], [Bid], [Game]) *)

Module Player.
Record t := mk {
    id : string;
    name : string;
    dice : list Z;
    diceCount : Z;
    isCurrentTurn : bool;
    socketId : string
}.

(** Field updates ([p.dice = ...], [p.diceCount -= 1], ...). *)
Definition set_dice (d : list Z) (p : t) : t :=
    mk (id p) (name p) d (diceCount p) (isCurrentTurn p) (socketId p).
Definition set_diceCount (n : Z) (p : t) : t :=
    mk (id p) (name p) (dice p) n (isCurrentTurn p) (socketId p).
Definition set_isCurrentTurn (b : bool) (p : t) : t :=
    mk (id p) (name p) (dice p) (diceCount p) b (socketId p).
End Player.
Abbreviation Player := Player.t.

Module Bid.
Record t := mk {
    count : Z;
    value : Z;
    playerId : string
}.
End Bid.
Abbreviation Bid := Bid.t.

Module Game.
(** [winner] is a reference to one of the [Player] objects of [players] in
    the source; no handler reads it back, and the model records the id of
    that object. *)
Record t := mk {
    id : string;
    players : list Player;
    currentBid : option Bid;
    gameStarted : bool;
    gameOver : bool;
    winner : option string;
    showDice : bool
}.

(** Field updates ([game.currentBid = ...], ...). *)
Definition set_players (ps : list Player) (g : t) : t :=
    mk (id g) ps (currentBid g) (gameStarted g) (gameOver g) (winner g) (showDice g).
Definition set_currentBid (b : option Bid) (g : t) : t :=
    mk (id g) (players g) b (gameStarted g) (gameOver g) (winner g) (showDice g).
Definition set_gameStarted (b : bool) (g : t) : t :=
    mk (id g) (players g) (currentBid g) b (gameOver g) (winner g) (showDice g).
Definition set_gameOver (b : bool) (g : t) : t :=
    mk (id g) (players g) (currentBid g) (gameStarted g) b (winner g) (showDice g).
Definition set_winner (w : option string) (g : t) : t :=
    mk (id g) (players g) (currentBid g) (gameStarted g) (gameOver g) w (showDice g).
Definition set_showDice (b : bool) (g : t) : t :=
    mk (id g) (players g) (currentBid g) (gameStarted g) (gameOver g) (winner g) b.
End Game.
Abbreviation Game := Game.t.

(** ** Events and timers *)

(** What a handler sends: [socket.emit], [socket.to(gameId).emit] and
    [io.to(gameId).emit].  Error events keep their message; the other events
    keep their payload without the human-readable [message]. *)
Inductive Event :=
| EvError (message : string)
| EvGameCreated (gameId playerId : string) (game : Game)
| EvGameJoined (gameId playerId : string) (game : Game)
| EvPlayerJoined (player : Player) (game : Game)
| EvGameStarted (game : Game)
| EvBidMade (bid : Bid) (game : Game) (nextPlayerId : string)
| EvBluffCalled (game : Game) (bluffCaller loser : string) (totalDiceWithValue bidValue : Z)
| EvGameOver (game : Game) (winnerId : string)
| EvNewRound (game : Game)
| EvComputerAdded (game : Game)
| EvPlayerLeft (gameId playerId : string).

(** The closures handed to [setTimeout].  Each captures the game object and,
    for a new round, the challenger whose [id] and [name] it reads when it
    fires.  The model holds the id under which the object is registered
    when the timer is scheduled; see [fire] for what that leaves out. *)
Inductive Timer :=
| TComputerMove (gameId : string)                            (* 1500 ms *)
| TNewRound (gameId challengerId challengerName : string)    (* 3000 ms, callBluff *)
| TComputerNewRound (gameId computerId : string).            (* 3000 ms, computerMove *)

Definition timer_game (t : Timer) : string :=
  match t with
  | TComputerMove g => g
  | TNewRound g _ _ => g
  | TComputerNewRound g _ => g
  end.

(** ** [Math.random] *)

(** The stream of draws still to come. *)
Definition Rng := nat → nat.

Definition next (r : Rng) : Rng := λ i, r (S i).

(** [Math.floor(Math.random() * k)]: a number in [0, k). *)
Definition randomBelow (k : nat) (r : Rng) : Z * Rng :=
  (Z.of_nat (r O `mod` k)%nat, next r).

(** [Math.random() < 0.5]. *)
Definition randomHalf (r : Rng) : bool * Rng :=
  (bool_decide (r O `mod` 2 = 0)%nat, next r).

Definition digit36 (d : nat) : Ascii.ascii :=
  if (d <? 10)%nat then Ascii.ascii_of_nat (48 + d) else Ascii.ascii_of_nat (87 + d).

Fixpoint digits36 (len u : nat) : string :=
  match len with
  | O => EmptyString
  | S k => String (digit36 (u `mod` 36)%nat) (digits36 k (u `div` 36)%nat)
  end.

(** [Math.random().toString(36).substring(2, 2 + len)]: base-36 digits read
    off the draw. *)
Definition randomId (len : nat) (r : Rng) : string * Rng :=
  (digits36 len (r O), next r).

(** [generateGameId]. *)
Definition generateGameId (r : Rng) : string * Rng := randomId 6 r.

Fixpoint rollDice_from (n : nat) (r : Rng) : list Z * Rng :=
  match n with
  | O => ([], r)
  | S k =>
      let '(d, r1) := randomBelow 6 r in
      let '(ds, r2) := rollDice_from k r1 in
      ((d + 1) :: ds, r2)
  end.

(** [rollDice]: [Array.from({ length: count }, ...)]; a length below 1 gives
    the empty array. *)
Definition rollDice (count : Z) (r : Rng) : list Z * Rng :=
  rollDice_from (Z.to_nat count) r.

(** ** Array helpers *)

(** [players.findIndex(pred)], [-1] when nothing matches. *)
Definition findIndex (P : Player → Prop) `{∀ p, Decision (P p)} (ps : list Player) : Z :=
  match list_find P ps with
  | Some (i, _) => Z.of_nat i
  | None => -1
  end.

(** [hand.filter(d => d === v).length]. *)
Definition countValue (v : Z) (hand : list Z) : Z :=
  Z.of_nat (length (filter (λ d, d = v) hand)).

(** [for (let i = lo; i < lo + n; i++) body]. *)
Fixpoint for_range {S : Type} (n : nat) (i : Z) (body : Z → S → S) (s : S) : S :=
  match n with
  | O => s
  | S k => for_range k (i + 1) body (body i s)
  end.

(** ** Outcomes *)

(** What one run of a handler does to the session it works on: the session
    after its in-place updates, the events sent and the timers scheduled. *)
Record Effect := mkEffect {
  eff_game : Game;
  eff_events : list Event;
  eff_timers : list Timer
}.

(** [socket.emit('error', { message }); return;] *)
Definition fail (game : Game) (message : string) : Effect :=
  mkEffect game [EvError message] [].

(** A plain [return;] (the early exits of the computer player). *)
Definition silent (game : Game) : Effect :=
  mkEffect game [] [].

(** The same for the registry as a whole; [out_thrown] says that the handler
    ended with an uncaught [TypeError] instead of returning. *)
Record Outcome := mkOutcome {
  out_games : gmap string Game;
  out_events : list Event;
  out_timers : list Timer;
  out_thrown : bool
}.

Definition reject (games : gmap string Game) (message : string) : Outcome :=
  mkOutcome games [EvError message] [] false.

(** The session object reached through [games[gameId]] was updated in place. *)
Definition commit (games : gmap string Game) (gameId : string) (e : Effect) : Outcome :=
  mkOutcome (<[gameId := eff_game e]> games) (eff_events e) (eff_timers e) false.

(** [games] is a plain object ([const games: Record<string, Game> = {}]), so
    [games[gameId]] also finds what every object inherits from
    [Object.prototype]: under these names, when the registry has no session
    of its own there, [game] is a function (or, for [__proto__], the
    prototype itself), which is truthy and has none of the fields of a
    session. *)
Definition inherited : list string :=
  ["constructor"; "__defineGetter__"; "__defineSetter__"; "hasOwnProperty";
   "__lookupGetter__"; "__lookupSetter__"; "isPrototypeOf"; "propertyIsEnumerable";
   "toString"; "valueOf"; "__proto__"; "toLocaleString"].

(** What a handler does with an inherited member: it reads
    [game.players.length] or calls [game.players.find] and throws, having
    emitted nothing; or ([callBluff], which tests [game.currentBid] first)
    it answers with an error, as on a session that lacks the field. *)
Inductive Stray :=
| Throws
| Answers (message : string).

Definition astray (games : gmap string Game) (how : Stray) : Outcome :=
  match how with
  | Throws => mkOutcome games [] [] true
  | Answers message => reject games message
  end.

(** [const game = games[gameId]; if (!game) { error 'Game not found' }]
    and then the body of the handler, which works on [game] in place;
    [stray] is what the body does with an inherited member. *)
Definition found (games : gmap string Game) (gameId : string) (stray : Stray)
    (body : Game → Effect) : Outcome :=
  match games !! gameId with
  | Some game => commit games gameId (body game)
  | None =>
      if bool_decide (gameId ∈ inherited) then astray games stray
      else reject games "Game not found"
  end.

(** The handler answered with one error event and nothing else. *)
Definition rejected (events : list Event) : Prop :=
  ∃ message, events = [EvError message].

(** ** Handlers of the human commands *)

(** The player object built by [createGame]: its id, then its dice. *)
Definition creator (socket playerName : string) (r : Rng) : Player :=
  let '(playerId, r1) := randomId 7 r in
  let '(hand, _) := rollDice 5 r1 in
  Player.mk playerId playerName hand 5 true socket.

(** [socket.on('createGame', ({ playerName }) => ...)]; [socket] is
    [socket.id]. *)
Definition createGame (games : gmap string Game) (socket playerName : string)
    (r : Rng) : Outcome :=
  let '(gameId, r1) := generateGameId r in
  let player := creator socket playerName r1 in
  let game := Game.mk gameId [player] None false false None false in
  mkOutcome (<[gameId := game]> games) [EvGameCreated gameId (Player.id player) game] []
    false.

(** [socket.on('joinGame', ({ gameId, playerName }) => ...)]. *)
Definition joinGame_on (game : Game) (socket gameId playerName : string) (r : Rng)
    : Effect :=
  if Game.gameStarted game then fail game "Game already started"
  else if bool_decide (2 ≤ length (Game.players game))%nat then fail game "Game is full"
  else
    let '(playerId, r1) := randomId 7 r in
    let '(hand, _) := rollDice 5 r1 in
    let player := Player.mk playerId playerName hand 5 false socket in
    let game' := Game.set_players (Game.players game ++ [player]) game in
    mkEffect game' [EvGameJoined gameId playerId game'; EvPlayerJoined player game'] [].

Definition joinGame (games : gmap string Game) (socket gameId playerName : string)
    (r : Rng) : Outcome :=
  found games gameId Throws (λ game, joinGame_on game socket gameId playerName r).

(** [socket.on('startGame', ({ gameId }) => ...)]. *)
Definition startGame_on (game : Game) : Effect :=
  if bool_decide (length (Game.players game) < 2)%nat
  then fail game "Need at least 2 players to start"
  else
    let game1 := Game.set_gameStarted true game in
    (* game.players[0].isCurrentTurn = true *)
    let game2 :=
      Game.set_players
        (alter (Player.set_isCurrentTurn true) O (Game.players game1)) game1 in
    mkEffect game2 [EvGameStarted game2] [].

Definition startGame (games : gmap string Game) (gameId : string) : Outcome :=
  found games gameId Throws startGame_on.

(** The test of the [// Validate bid] step: [true] when the bid is refused. *)
Definition invalidBid (currentBid : option Bid) (count value : Z) : bool :=
  match currentBid with
  | None => false
  | Some cur =>
      (count <? Bid.count cur)
      || ((count =? Bid.count cur) && (value <=? Bid.value cur))
  end.

(** [// Switch turns]: the turn goes to the next index of the whole array. *)
Definition switchTurns (playerId : string) (ps : list Player) : Z * list Player :=
  let currentPlayerIndex := findIndex (λ p, Player.id p = playerId) ps in
  let nextPlayerIndex := Z.rem (currentPlayerIndex + 1) (Z.of_nat (length ps)) in
  (nextPlayerIndex,
   imap (λ index p,
           Player.set_isCurrentTurn (bool_decide (Z.of_nat index = nextPlayerIndex)) p)
        ps).

(** [game.players[nextPlayerIndex]], undefined out of range. *)
Definition playerAt (ps : list Player) (index : Z) : option Player :=
  if index <? 0 then None else ps !! Z.to_nat index.

(** The [bidMade] event, which names the next player. *)
Definition bidMade (newBid : Bid) (nextPlayerIndex : Z) (game : Game) : list Event :=
  match playerAt (Game.players game) nextPlayerIndex with
  | Some nextPlayer => [EvBidMade newBid game (Player.id nextPlayer)]
  | None => []
  end.

(** [// If next player is computer, make computer move] (after 1500 ms). *)
Definition wakeComputer (gameId : string) (nextPlayerIndex : Z) (game : Game)
    : list Timer :=
  match playerAt (Game.players game) nextPlayerIndex with
  | Some nextPlayer =>
      if bool_decide (Player.name nextPlayer = "Computer")
      then [TComputerMove gameId] else []
  | None => []
  end.

(** [socket.on('makeBid', ({ gameId, playerId, count, value }) => ...)] on
    the session found under [gameId]. *)
Definition makeBid_on (game : Game) (gameId playerId : string) (count value : Z)
    : Effect :=
  match list_find (λ p, Player.id p = playerId) (Game.players game) with
  | None => fail game "Player not found"
  | Some (_, player) =>
      if negb (Player.isCurrentTurn player) then fail game "Not your turn"
      else if invalidBid (Game.currentBid game) count value then
        fail game "Invalid bid! You must bid a higher count or same count with higher value."
      else
        let newBid := Bid.mk count value playerId in
        let game1 := Game.set_currentBid (Some newBid) game in
        let '(nextPlayerIndex, ps) := switchTurns playerId (Game.players game1) in
        let game2 := Game.set_players ps game1 in
        mkEffect game2 (bidMade newBid nextPlayerIndex game2)
          (wakeComputer gameId nextPlayerIndex game2)
  end.

Definition makeBid (games : gmap string Game) (gameId playerId : string)
    (count value : Z) : Outcome :=
  found games gameId Throws (λ game, makeBid_on game gameId playerId count value).

(** [game.players.reduce((count, player) => count + player.dice.filter(...).length, 0)]. *)
Definition totalDiceWithValue (v : Z) (ps : list Player) : Z :=
  fold_left (λ count player, count + countValue v (Player.dice player)) ps 0.

(** [// Re-roll dice for all players]: everybody whose id is not the loser's
    and who still has dice, in array order. *)
Fixpoint rerollOthers (loserId : string) (ps : list Player) (r : Rng)
    : list Player * Rng :=
  match ps with
  | [] => ([], r)
  | p :: rest =>
      if bool_decide (Player.id p ≠ loserId) && (0 <? Player.diceCount p) then
        let '(hand, r1) := rollDice (Player.diceCount p) r in
        let '(rest', r2) := rerollOthers loserId rest r1 in
        (Player.set_dice hand p :: rest', r2)
      else
        let '(rest', r2) := rerollOthers loserId rest r in
        (p :: rest', r2)
  end.

(** [// Update loser's dice count]. *)
Definition loseDie (loser : Player) (r : Rng) : Player * Rng :=
  let n := Player.diceCount loser - 1 in
  if 0 <? n then
    let '(hand, r1) := rollDice n r in
    (Player.set_dice hand (Player.set_diceCount n loser), r1)
  else (Player.set_dice [] (Player.set_diceCount n loser), r).

(** The part that [callBluff] and the computer's bluff call share, from
    [// Update loser's dice count] to the end: the loser is the object at
    index [li], [callerId] called the bluff, and [newRound] is the closure
    scheduled when nobody is out of dice. *)
Definition settleBluff (game : Game) (bid : Bid) (total : Z) (li : nat)
    (loser : Player) (callerId : string) (newRound : Timer) (r : Rng) : Effect :=
  let '(loser', r1) := loseDie loser r in
  let ps1 := <[li := loser']> (Game.players game) in
  let '(ps2, _) := rerollOthers (Player.id loser') ps1 r1 in
  let game2 := Game.set_players ps2 game in
  let bluffCalled :=
    EvBluffCalled game2 callerId (Player.id loser') total (Bid.value bid) in
  (* // Check if game is over *)
  let gameEnded := existsb (λ p, Player.diceCount p =? 0) ps2 in
  if gameEnded then
    match find (λ p, 0 <? Player.diceCount p) ps2 with
    | Some winner =>
        let game3 :=
          Game.set_gameOver true (Game.set_winner (Some (Player.id winner)) game2) in
        mkEffect game3 [bluffCalled; EvGameOver game3 (Player.id winner)] []
    | None => mkEffect game2 [bluffCalled] []
    end
  else mkEffect game2 [bluffCalled] [newRound].

(** [socket.on('callBluff', ({ gameId, playerId }) => ...)] on the session
    found under [gameId]. *)
Definition callBluff_on (game : Game) (gameId playerId : string) (r : Rng) : Effect :=
  match Game.currentBid game with
  | None => fail game "No bid to call bluff on"
  | Some bid =>
      match list_find (λ p, Player.id p = playerId) (Game.players game) with
      | None => fail game "Player not found"
      | Some (_, player) =>
          if negb (Player.isCurrentTurn player) then fail game "Not your turn"
          else
            let game1 := Game.set_showDice true game in
            let total := totalDiceWithValue (Bid.value bid) (Game.players game1) in
            match list_find (λ p, Player.id p = Bid.playerId bid) (Game.players game1),
                  list_find (λ p, Player.id p = playerId) (Game.players game1) with
            | Some (bi, bidder), Some (ci, challenger) =>
                let newRound :=
                  TNewRound gameId (Player.id challenger) (Player.name challenger) in
                if total >=? Bid.count bid
                then settleBluff game1 bid total ci challenger (Player.id challenger) newRound r
                else settleBluff game1 bid total bi bidder (Player.id challenger) newRound r
            | _, _ => fail game1 "Player not found"
            end
      end
  end.

Definition callBluff (games : gmap string Game) (gameId playerId : string)
    (r : Rng) : Outcome :=
  found games gameId (Answers "No bid to call bluff on")
    (λ game, callBluff_on game gameId playerId r).

(** [socket.on('addComputer', ({ gameId }) => ...)]. *)
Definition addComputer_on (game : Game) (r : Rng) : Effect :=
  if bool_decide (2 ≤ length (Game.players game))%nat then fail game "Game is full"
  else
    let '(computerId, r1) := randomId 7 r in
    let '(hand, _) := rollDice 5 r1 in
    let computerPlayer := Player.mk computerId "Computer" hand 5 false "computer" in
    let game' := Game.set_players (Game.players game ++ [computerPlayer]) game in
    mkEffect game' [EvComputerAdded game'] [].

Definition addComputer (games : gmap string Game) (gameId : string) (r : Rng)
    : Outcome :=
  found games gameId Throws (λ game, addComputer_on game r).

(** One round of the loop of [disconnect] over [Object.keys(games)]: the
    session after the splice, or [None] when it was deleted. *)
Definition disconnect_from (socket : string) (game : Game) : option Game :=
  match list_find (λ p, Player.socketId p = socket) (Game.players game) with
  | None => Some game
  | Some (playerIndex, _) =>
      let game' := Game.set_players (delete playerIndex (Game.players game)) game in
      if bool_decide (length (Game.players game') = 0)%nat then None else Some game'
  end.

Definition playerLeft (socket : string) (entry : string * Game) : option Event :=
  match list_find (λ p, Player.socketId p = socket) (Game.players entry.2) with
  | None => None
  | Some (_, player) => Some (EvPlayerLeft entry.1 (Player.id player))
  end.

(** [socket.on('disconnect', () => ...)]. *)
Definition disconnect (games : gmap string Game) (socket : string) : Outcome :=
  mkOutcome (omap (disconnect_from socket) games)
    (omap (playerLeft socket) (map_to_list games)) [] false.

(** ** The computer player ([computerMove]) *)

(** An integer held in a JavaScript number. *)
Definition number (z : Z) : float :=
  if z <? 0 then (- PrimFloat.of_uint63 (Uint63.of_Z (- z)))%float
  else PrimFloat.of_uint63 (Uint63.of_Z z).

(** [Math.max] and [Math.min] on two numbers: NaN if either is NaN, and
    [-0] below [+0]. *)
Definition Math_max (x y : float) : float :=
  if PrimFloat.is_nan x || PrimFloat.is_nan y then PrimFloat.nan
  else if (x <? y)%float then y
  else if (y <? x)%float then x
  else if PrimFloat.get_sign x then y else x.

Definition Math_min (x y : float) : float :=
  if PrimFloat.is_nan x || PrimFloat.is_nan y then PrimFloat.nan
  else if (x <? y)%float then x
  else if (y <? x)%float then y
  else if PrimFloat.get_sign x then x else y.

Definition probPerDie : float := (1 / 6)%float.

Definition bluffThreshold : float := 0.3%float.

(** [// Simple probability calculation]: the estimate that the bid holds. *)
Definition bidProbability (neededFromOpponent opponentDiceCount : Z) : float :=
  if neededFromOpponent <=? 0 then 1.0%float
  else if neededFromOpponent >? opponentDiceCount then 0.0%float
  else
    let probability :=
      for_range (Z.to_nat neededFromOpponent) 0
        (λ i probability,
           (probability * (probPerDie * number opponentDiceCount / number (i + 1)))%float)
        1.0%float in
    Math_min 1.0 (Math_max 0.0 probability).

(** [game.players.reduce((count, p) => p.name !== "Computer" ? count + p.diceCount : count, 0)]. *)
Definition opponentDiceCount (ps : list Player) : Z :=
  fold_left
    (λ count p,
       if bool_decide (Player.name p ≠ "Computer") then count + Player.diceCount p
       else count)
    ps 0.

(** The decision [callBluff] of the computer for its hand and the bid. *)
Definition computerCallsBluff (hand : list Z) (bid : Bid) (opponentDice : Z) : bool :=
  let computerValueCount := countValue (Bid.value bid) hand in
  let neededFromOpponent := Bid.count bid - computerValueCount in
  (bidProbability neededFromOpponent opponentDice <? bluffThreshold)%float.

(** [valueCounts]: how often each face is in the hand (index 0 unused). *)
Definition valueCounts (hand : list Z) : list Z :=
  fold_left (λ counts value, alter Z.succ (Z.to_nat value) counts) hand
    [0; 0; 0; 0; 0; 0; 0].

(** [// Find the most frequent value in computer's hand]: [(maxCount, maxValue)]. *)
Definition mostFrequent (counts : list Z) : Z * Z :=
  for_range 6 1
    (λ i best,
       if counts !!! Z.to_nat i >? best.1 then (counts !!! Z.to_nat i, i) else best)
    (0, 1).

(** The count and the value of a bid are numbers the client chooses.  The
    model writes a number that is an integer as that integer; what the code
    adds to it, it adds in binary64.  [round64 x] is the integer [x] rounded
    to the nearest number with a significand of 53 bits, a tie going to the
    even significand: every integer up to [2^53] in magnitude is kept, from
    there on the numbers are 2, then 4, ... apart.  (Numbers too large for
    binary64 are read from JSON as [Infinity] and are outside the model.) *)
Definition round64 (x : Z) : Z :=
  let a := Z.abs x in
  if a <? 2 ^ 53 then x
  else
    let e := Z.log2 a - 52 in
    let q := a / 2 ^ e in
    let rest := a mod 2 ^ e in
    let half := 2 ^ (e - 1) in
    let q' :=
      if rest <? half then q
      else if half <? rest then q + 1
      else if Z.even q then q else q + 1 in
    Z.sgn x * (q' * 2 ^ e).

(** [n + 1] and [n++] on a number of a bid. *)
Definition incr (n : Z) : Z := round64 (n + 1).

(** [// Determine new bid], with the draws it may consume. *)
Definition chooseBid (hand : list Z) (bid : Bid) (r : Rng) : Z * Z :=
  let '(maxCount, maxValue) := mostFrequent (valueCounts hand) in
  if maxCount >=? 2 then
    if maxValue >? Bid.value bid then (Bid.count bid, maxValue)
    else if maxValue <? Bid.value bid then (incr (Bid.count bid), maxValue)
    else (incr (Bid.count bid), Bid.value bid)
  else
    let '(half, r1) := randomHalf r in
    if half && (Bid.value bid <? 6) then (Bid.count bid, incr (Bid.value bid))
    else
      let '(v, _) := randomBelow 6 r1 in
      (incr (Bid.count bid), v + 1).

(** [// Ensure the bid is valid (higher than current bid)]. *)
Definition ensureHigher (bid : Bid) (candidate : Z * Z) : Z * Z :=
  let '(newCount, newValue) := candidate in
  if (newCount <? Bid.count bid)
     || ((newCount =? Bid.count bid) && (newValue <=? Bid.value bid))
  then
    if incr (Bid.value bid) >? 6 then (incr (Bid.count bid), 1)
    else (Bid.count bid, incr (Bid.value bid))
  else (newCount, newValue).

(** The bid of the computer replaces the current one and the turn moves on;
    no timer is scheduled on this path. *)
Definition computerBids (game : Game) (computerPlayer : Player) (count value : Z)
    : Effect :=
  let newBid := Bid.mk count value (Player.id computerPlayer) in
  let game1 := Game.set_currentBid (Some newBid) game in
  let '(nextPlayerIndex, ps) := switchTurns (Player.id computerPlayer) (Game.players game1) in
  let game2 := Game.set_players ps game1 in
  mkEffect game2 (bidMade newBid nextPlayerIndex game2) [].

(** [const computerPlayer = game.players.find(p => p.name === "Computer");
    if (!computerPlayer || !computerPlayer.isCurrentTurn) return;]: the
    computer and its index when it may move. *)
Definition computerToMove (game : Game) : option (nat * Player) :=
  match list_find (λ p, Player.name p = "Computer") (Game.players game) with
  | None => None
  | Some (ci, computerPlayer) =>
      if negb (Player.isCurrentTurn computerPlayer) then None
      else Some (ci, computerPlayer)
  end.

(** [function computerMove(game, gameId, io)]. *)
Definition computerMove_on (game : Game) (gameId : string) (r : Rng) : Effect :=
  match Game.currentBid game with
  | None =>
      (* // First bid in the game *)
      match computerToMove game with
      | None => silent game
      | Some (_, computerPlayer) =>
          let '(c, r1) := randomBelow 3 r in
          let '(v, _) := randomBelow 6 r1 in
          computerBids game computerPlayer (c + 1) (v + 1)
      end
  | Some bid =>
      match computerToMove game with
      | None => silent game
      | Some (ci, computerPlayer) =>
          if computerCallsBluff (Player.dice computerPlayer) bid
               (opponentDiceCount (Game.players game))
          then
            let game1 := Game.set_showDice true game in
            let total := totalDiceWithValue (Bid.value bid) (Game.players game1) in
            match list_find (λ p, Player.id p = Bid.playerId bid) (Game.players game1) with
            | None => silent game1
            | Some (bi, bidder) =>
                let newRound := TComputerNewRound gameId (Player.id computerPlayer) in
                if total >=? Bid.count bid
                then settleBluff game1 bid total ci computerPlayer
                       (Player.id computerPlayer) newRound r
                else settleBluff game1 bid total bi bidder
                       (Player.id computerPlayer) newRound r
            end
          else
            let '(newCount, newValue) :=
              ensureHigher bid (chooseBid (Player.dice computerPlayer) bid r) in
            computerBids game computerPlayer newCount newValue
      end
  end.

(** ** Timers *)

(** The body of the [setTimeout] of a new round: the dice are hidden, the bid
    is cleared and the turn goes to whoever has the id of the challenger. *)
Definition newRound_on (challengerId : string) (game : Game) : Game :=
  let game1 := Game.set_currentBid None (Game.set_showDice false game) in
  Game.set_players
    ((λ p, Player.set_isCurrentTurn (bool_decide (Player.id p = challengerId)) p)
       <$> Game.players game1)
    game1.

Definition fire_on (t : Timer) (game : Game) (r : Rng) : Effect :=
  match t with
  | TComputerMove gameId => computerMove_on game gameId r
  | TNewRound gameId challengerId challengerName =>
      let game' := newRound_on challengerId game in
      mkEffect game' [EvNewRound game']
        (if bool_decide (challengerName = "Computer") then [TComputerMove gameId] else [])
  | TComputerNewRound gameId computerId =>
      let game' := newRound_on computerId game in
      mkEffect game' [EvNewRound game'] [TComputerMove gameId]
  end.

(** A timer that fires while the session it was scheduled for is registered
    under its id works on that session.  The closure holds the session
    object itself and looks nothing up: once the session has left the
    registry it works on an object the registry cannot reach, so the
    registry does not change; what it still emits from that object is not
    modelled (the [None] branch is silent), and statements about the events
    and timers of [fire] are made for a session in the registry. *)
Definition fire (games : gmap string Game) (t : Timer) (r : Rng) : Outcome :=
  match games !! timer_game t with
  | None => mkOutcome games [] [] false
  | Some game => commit games (timer_game t) (fire_on t game r)
  end.

(** ** The server as a transition system *)

Record Server := mkServer {
  games : gmap string Game;
  timers : list Timer
}.

Definition init : Server := mkServer ∅ [].

(** The commands a socket can send, each with the [socket.id] it comes from. *)
Inductive Command :=
| CreateGame (socket playerName : string)
| JoinGame (socket gameId playerName : string)
| StartGame (socket gameId : string)
| MakeBid (socket gameId playerId : string) (count value : Z)
| CallBluff (socket gameId playerId : string)
| AddComputer (socket gameId : string)
| Disconnect (socket : string).

Definition handle (gs : gmap string Game) (c : Command) (r : Rng) : Outcome :=
  match c with
  | CreateGame socket playerName => createGame gs socket playerName r
  | JoinGame socket gameId playerName => joinGame gs socket gameId playerName r
  | StartGame _ gameId => startGame gs gameId
  | MakeBid _ gameId playerId count value => makeBid gs gameId playerId count value
  | CallBluff _ gameId playerId => callBluff gs gameId playerId r
  | AddComputer _ gameId => addComputer gs gameId r
  | Disconnect socket => disconnect gs socket
  end.

(** What happens next: a command arrives, or the [n]-th pending timer fires;
    either comes with the draws [Math.random] will give it. *)
Inductive Action :=
| Receive (c : Command) (r : Rng)
| Fire (n : nat) (r : Rng).

Definition step (s : Server) (a : Action) : Server * list Event :=
  match a with
  | Receive c r =>
      let o := handle (games s) c r in
      (mkServer (out_games o) (timers s ++ out_timers o), out_events o)
  | Fire n r =>
      match timers s !! n with
      | None => (s, [])
      | Some t =>
          let o := fire (games s) t r in
          (mkServer (out_games o) (delete n (timers s) ++ out_timers o), out_events o)
      end
  end.

Definition run (s : Server) (actions : list Action) : Server :=
  fold_left (λ s a, (step s a).1) actions s.

Inductive reachable : Server → Prop :=
| reachable_init : reachable init
| reachable_step s a : reachable s → reachable (step s a).1.

(** A stream of draws that starts with [l] and goes on with zeros. *)
Definition draws (l : list nat) : Rng := λ i, nth i l O.

(** ** Vocabulary of the properties *)

(** The ordering of bids of the specification: the candidate is strictly
    higher than the reference, and any candidate is higher than no bid. *)
Definition isHigher (count value : Z) (reference : option Bid) : Prop :=
  match reference with
  | None => True
  | Some cur =>
      count > Bid.count cur ∨ (count = Bid.count cur ∧ value > Bid.value cur)
  end.

(** A bid was taken: it is the current bid of the session, and [bidMade]
    went out naming the next player. *)
Definition bid_accepted (o : Outcome) (gameId : string) (bid : Bid) : Prop :=
  ∃ game' nextPlayerId,
    out_games o !! gameId = Some game'
    ∧ Game.currentBid game' = Some bid
    ∧ out_events o = [EvBidMade bid game' nextPlayerId].

(** Nobody in the array holds the turn. *)
Definition nobody_holds_turn (ps : list Player) : Prop :=
  ∀ p, p ∈ ps → Player.isCurrentTurn p = false.


(** ** Sample runs

    Ann creates the session ["100000"] from socket ["sA"] and gets the id
    ["2000000"]; Bob joins from socket ["sB"] and gets the id ["3000000"].
    Every die rolled shows a 1. *)

Definition zeros : Rng := draws [].

Definition ann_creates : Action := Receive (CreateGame "sA" "Ann") (draws [1; 2]%nat).
Definition bob_joins : Action := Receive (JoinGame "sB" "100000" "Bob") (draws [3]%nat).
Definition start : Action := Receive (StartGame "sA" "100000") zeros.
Definition ann_bids (count value : Z) : Action :=
  Receive (MakeBid "sA" "100000" "2000000" count value) zeros.
Definition bob_bids (count value : Z) : Action :=
  Receive (MakeBid "sB" "100000" "3000000" count value) zeros.
Definition ann_calls : Action := Receive (CallBluff "sA" "100000" "2000000") zeros.
Definition bob_calls : Action := Receive (CallBluff "sB" "100000" "3000000") zeros.
Definition ann_leaves : Action := Receive (Disconnect "sA") zeros.
Definition timer_fires : Action := Fire 0 zeros.

(** Ann alone in the lobby; Ann and Bob in the lobby; the started session. *)
Definition alone : Server := run init [ann_creates].
Definition lobby : Server := run init [ann_creates; bob_joins].
Definition active : Server := run init [ann_creates; bob_joins; start].

(** A round Ann loses: she calls a bluff on Bob's true bid of two 1s; the
    new round then starts with her. *)
Definition ann_loses_round : list Action :=
  [ann_bids 1 1; bob_bids 2 1; ann_calls; timer_fires].

(** Ann loses her five dice: the fifth bluff call ends the game (and
    schedules no new round). *)
Definition played_out : Server :=
  run active
    (ann_loses_round ++ ann_loses_round ++ ann_loses_round ++ ann_loses_round
     ++ [ann_bids 1 1; bob_bids 2 1; ann_calls]).

(** Ann, Bob and their session as they are in [active]. *)
Definition ann : Player := Player.mk "2000000" "Ann" [1; 1; 1; 1; 1] 5 true "sA".
Definition bob : Player := Player.mk "3000000" "Bob" [1; 1; 1; 1; 1] 5 false "sB".
Definition active_game : Game := Game.mk "100000" [ann; bob] None true false None false.

(** The session of a server, as a list of what the properties look at. *)
Definition session (s : Server) (gameId : string) : option Game := games s !! gameId.

Definition diceCounts (g : Game) : list Z := Player.diceCount <$> Game.players g.
Definition turns (g : Game) : list bool := Player.isCurrentTurn <$> Game.players g.

(** ** Vocabulary of bluff resolution *)

(** [totalMatching = Σ count(hand_i == value)] in the words of the
    specification: the sum, over the participants, of the number of their
    dice that show [value]. *)
Definition totalMatching (value : Z) (ps : list Player) : Z :=
  foldr Z.add 0 ((λ p, countValue value (Player.dice p)) <$> ps).

(** [hand] is a fresh roll of [n] dice. *)
Definition rolled (n : Z) (hand : list Z) : Prop :=
  ∃ r, hand = (rollDice n r).1.

(** [p'] is [p] with one die less and a hand rolled anew for the new count,
    empty when no die is left. *)
Definition lost_a_die (p p' : Player) : Prop :=
  Player.diceCount p' = Player.diceCount p - 1
  ∧ (if 0 <? Player.diceCount p' then rolled (Player.diceCount p') (Player.dice p')
     else Player.dice p' = [])
  ∧ Player.id p' = Player.id p
  ∧ Player.name p' = Player.name p
  ∧ Player.isCurrentTurn p' = Player.isCurrentTurn p
  ∧ Player.socketId p' = Player.socketId p.

(** [p'] is [p] with the same number of dice, rolled anew. *)
Definition rerolled (p p' : Player) : Prop :=
  ∃ hand, rolled (Player.diceCount p) hand ∧ p' = Player.set_dice hand p.

(** ** Vocabulary of the computer's estimate *)







(** ** Vocabulary of the invariants *)

Definition ids (g : Game) : list string := Player.id <$> Game.players g.

(** One step of the server seen from the session stored under [gameId]:
    the session before and after, and the timers the step schedules for it.
    [pending] are the timers of the server before the step. *)
Inductive session_step (pending : list Timer) (gameId : string) (game : Game)
    : Action → Game → list Timer → Prop :=
| ss_untouched a :
    session_step pending gameId game a game []
| ss_joinGame socket playerName r :
    session_step pending gameId game
      (Receive (JoinGame socket gameId playerName) r)
      (eff_game (joinGame_on game socket gameId playerName r)) []
| ss_startGame socket r :
    session_step pending gameId game
      (Receive (StartGame socket gameId) r)
      (eff_game (startGame_on game)) []
| ss_makeBid socket playerId count value r :
    session_step pending gameId game
      (Receive (MakeBid socket gameId playerId count value) r)
      (eff_game (makeBid_on game gameId playerId count value))
      (eff_timers (makeBid_on game gameId playerId count value))
| ss_callBluff socket playerId r :
    session_step pending gameId game
      (Receive (CallBluff socket gameId playerId) r)
      (eff_game (callBluff_on game gameId playerId r))
      (eff_timers (callBluff_on game gameId playerId r))
| ss_addComputer socket r :
    session_step pending gameId game
      (Receive (AddComputer socket gameId) r)
      (eff_game (addComputer_on game r)) []
| ss_disconnect socket r game' :
    disconnect_from socket game = Some game' →
    session_step pending gameId game (Receive (Disconnect socket) r) game' []
| ss_fire n t r :
    pending !! n = Some t →
    timer_game t = gameId →
    session_step pending gameId game (Fire n r)
      (eff_game (fire_on t game r)) (eff_timers (fire_on t game r)).



(** At most one of the flags is set. *)
Definition single (bs : list bool) : Prop :=
  ∀ i j, bs !! i = Some true → bs !! j = Some true → i = j.

(** A bid, by a player or by the computer, keeps ids, dice counts and the
    phase, and leaves at most one participant with the turn. *)
Definition bid_shape (game game' : Game) : Prop :=
  ids game' = ids game
  ∧ diceCounts game' = diceCounts game
  ∧ single (turns game')
  ∧ Game.gameStarted game' = Game.gameStarted game.

(** A bluff was settled against the participant at [li]. *)
Definition settled_shape (game game' : Game) : Prop :=
  ∃ li loser,
    Game.players game !! li = Some loser
    ∧ is_Some (Game.currentBid game)
    ∧ ids game' = ids game
    ∧ turns game' = turns game
    ∧ Game.gameStarted game' = Game.gameStarted game
    ∧ Game.currentBid game' = Game.currentBid game
    ∧ diceCounts game' = <[li := Player.diceCount loser - 1]> (diceCounts game).

(** Nothing the invariants look at has changed. *)
Definition same_shape (game game' : Game) : Prop :=
  Game.players game' = Game.players game
  ∧ Game.gameStarted game' = Game.gameStarted game
  ∧ Game.currentBid game' = Game.currentBid game.


(** At most one participant of the session holds the turn. *)
Definition at_most_one_turn (g : Game) : Prop :=
  ∀ i j p q,
    Game.players g !! i = Some p → Game.players g !! j = Some q →
    Player.isCurrentTurn p = true → Player.isCurrentTurn q = true → i = j.

(** What an orderly run keeps true of every session: the ids of its
    participants are distinct, at most one of them holds the turn, and
    before the start there is no bid and only the first participant can
    hold the turn. *)
Definition tidy (g : Game) : Prop :=
  NoDup (ids g)
  ∧ single (turns g)
  ∧ (Game.gameStarted g = false →
     Game.currentBid g = None ∧ ∀ i, turns g !! i = Some true → i = O).

(** The timers that are pending belong to sessions that have started. *)
Definition timers_started (s : Server) : Prop :=
  ∀ t g, t ∈ timers s → games s !! timer_game t = Some g → Game.gameStarted g = true.

(** An orderly step: the random ids do not collide (the id of a new session
    is not in use, in the registry or by a pending timer, and the id of a
    new participant is not in use in the session), [startGame] is sent to a
    session that has not started, and [makeBid] to one that has. *)
Definition orderly (s : Server) (a : Action) : Prop :=
  match a with
  | Receive (CreateGame _ _) r =>
      games s !! (generateGameId r).1 = None
      ∧ ∀ t, t ∈ timers s → timer_game t ≠ (generateGameId r).1
  | Receive (JoinGame _ gameId _) r | Receive (AddComputer _ gameId) r =>
      ∀ game, games s !! gameId = Some game → (randomId 7 r).1 ∉ ids game
  | Receive (StartGame _ gameId) _ =>
      ∀ game, games s !! gameId = Some game → Game.gameStarted game = false
  | Receive (MakeBid _ gameId _ _ _) _ =>
      ∀ game, games s !! gameId = Some game → Game.gameStarted game = true
  | _ => True
  end.

Inductive orderly_reachable : Server → Prop :=
| orderly_init : orderly_reachable init
| orderly_step s a :
    orderly_reachable s → orderly s a → orderly_reachable (step s a).1.

(** Every step of the run is orderly in the state it is taken in. *)
Fixpoint orderly_run (s : Server) (actions : list Action) : Prop :=
  match actions with
  | [] => True
  | a :: rest => orderly s a ∧ orderly_run (step s a).1 rest
  end.

(** ** Vocabulary of the further properties *)

(** A hand that fits its count: as many dice as [diceCount] says (none when
    the count is below 1), each showing a face from 1 to 6. *)
Definition hand_fits (p : Player) : Prop :=
  length (Player.dice p) = Z.to_nat (Player.diceCount p)
  ∧ ∀ d, d ∈ Player.dice p → 1 ≤ d ≤ 6.

(** The session an event carries to the clients (the [game] of its
    payload); [error] and [playerLeft] carry none. *)
Definition carried (e : Event) : option Game :=
  match e with
  | EvError _ | EvPlayerLeft _ _ => None
  | EvGameCreated _ _ g | EvGameJoined _ _ g | EvPlayerJoined _ g
  | EvGameStarted g | EvBidMade _ g _ | EvBluffCalled g _ _ _ _
  | EvGameOver g _ | EvNewRound g | EvComputerAdded g => Some g
  end.

(** The session carried by the last event that carries one. *)
Definition last_carried (events : list Event) : option Game :=
  last (omap carried events).

(** The session a command works on. *)
Definition target (c : Command) (r : Rng) : option string :=
  match c with
  | CreateGame _ _ => Some (generateGameId r).1
  | JoinGame _ gameId _ | StartGame _ gameId | MakeBid _ gameId _ _ _
  | CallBluff _ gameId _ | AddComputer _ gameId => Some gameId
  | Disconnect _ => None
  end.

(** The events of an effect carry the session the effect leaves, if any. *)
Definition in_sync (e : Effect) : Prop :=
  ∀ g, last_carried (eff_events e) = Some g → g = eff_game e.

(** ** The die component ([Dice.tsx]) and the dice row of the board *)

Inductive Size := sm | md | lg.

Definition sizeClasses (size : Size) : string :=
  match size with sm => "w-8 h-8" | md => "w-12 h-12" | lg => "w-16 h-16" end.

(** [dotPositions[value]]; [None] is [undefined]. *)
Definition dotPositions (value : Z) : option (list string) :=
  match value with
  | 1 => Some ["center"]
  | 2 => Some ["top-left"; "bottom-right"]
  | 3 => Some ["top-left"; "center"; "bottom-right"]
  | 4 => Some ["top-left"; "top-right"; "bottom-left"; "bottom-right"]
  | 5 => Some ["top-left"; "top-right"; "center"; "bottom-left"; "bottom-right"]
  | 6 => Some ["top-left"; "top-right"; "middle-left"; "middle-right"; "bottom-left";
               "bottom-right"]
  | _ => None
  end.

Definition getPositionClass (position : string) : string :=
  if (position =? "top-left")%string then "top-[20%] left-[20%]"
  else if (position =? "top-right")%string then "top-[20%] right-[20%]"
  else if (position =? "middle-left")%string then "top-[50%] left-[20%] -translate-y-1/2"
  else if (position =? "middle-right")%string then "top-[50%] right-[20%] -translate-y-1/2"
  else if (position =? "bottom-left")%string then "bottom-[20%] left-[20%]"
  else if (position =? "bottom-right")%string then "bottom-[20%] right-[20%]"
  else if (position =? "center")%string
       then "top-1/2 left-1/2 -translate-x-1/2 -translate-y-1/2"
  else "".

Definition dotSize (size : Size) : string :=
  match size with sm => "w-1.5 h-1.5" | md => "w-2 h-2" | lg => "w-3 h-3" end.

(** The element [Dice] returns: the class of the box and, for each dot in
    it, the class of the dot. *)
Record Element := mkElement { className : string; dots : list string }.

(** [Dice({ value, size })]; [None] is the [TypeError] of
    [undefined.map]. *)
Definition Dice (value : Z) (size : Size) : option Element :=
  positions ← dotPositions value;
  Some (mkElement
          ("relative " +:+ sizeClasses size
             +:+ " bg-white border-2 border-gray-300 rounded-md shadow-md")
          ((λ position, "absolute " +:+ dotSize size +:+ " bg-black rounded-full "
                          +:+ getPositionClass position) <$> positions)).

(** A box of the dice row: a die, or the grey square of a hidden one. *)
Inductive Box := Shown (die : Element) | Hidden.

(** The dice row [renderPlayerDice] builds for [player], seen by the client
    whose participant is [playerId], for a session [game] it has been
    sent. *)
Definition renderPlayerDice (game : Game) (playerId : string) (player : Player)
    : option (list Box) :=
  let isCurrentUserPlayer := bool_decide (Player.id player = playerId) in
  if isCurrentUserPlayer || Game.showDice game then
    mapM (λ value, Shown <$> Dice value sm) (Player.dice player)
  else Some (replicate (Z.to_nat (Player.diceCount player)) Hidden).

(** The number of dots of a box. *)
Definition pips (b : Box) : option Z :=
  match b with
  | Shown die => Some (Z.of_nat (length (dots die)))
  | Hidden => None
  end.

(** ** Vocabulary of calm runs *)

(** The participant a pending timer gives the turn to when it fires. *)
Definition timer_turn (t : Timer) : option string :=
  match t with
  | TComputerMove _ => None
  | TNewRound _ challengerId _ => Some challengerId
  | TComputerNewRound _ computerId => Some computerId
  end.

(** Somebody holds the turn. *)
Definition some_turn (g : Game) : Prop := ∃ i, turns g !! i = Some true.

(** The pending timers that give the turn away give it to a participant of
    their session. *)
Definition timers_known (s : Server) : Prop :=
  ∀ t g playerId,
    t ∈ timers s → games s !! timer_game t = Some g → timer_turn t = Some playerId →
    playerId ∈ ids g.

(** Exactly one participant of the session holds the turn. *)
Definition exactly_one_turn (g : Game) : Prop :=
  ∃ i p,
    Game.players g !! i = Some p
    ∧ Player.isCurrentTurn p = true
    ∧ ∀ j q, Game.players g !! j = Some q → Player.isCurrentTurn q = true → j = i.

(** A calm step: an orderly one that is not a disconnect. *)
Definition calm (s : Server) (a : Action) : Prop :=
  orderly s a ∧ ∀ socket r, a ≠ Receive (Disconnect socket) r.

Inductive calm_reachable : Server → Prop :=
| calm_init : calm_reachable init
| calm_step s a : calm_reachable s → calm s a → calm_reachable (step s a).1.

(** Every step of the run is calm in the state it is taken in. *)
Fixpoint calm_run (s : Server) (actions : list Action) : Prop :=
  match actions with
  | [] => True
  | a :: rest => calm s a ∧ calm_run (step s a).1 rest
  end.

(** ** Vocabulary of the computer's raise *)


(** ** Vocabulary of the phase *)

(** The session with its phase flags set to [started] and [over]. *)
Definition in_phase (started over : bool) (g : Game) : Game :=
  Game.set_gameStarted started (Game.set_gameOver over g).

(** [f] applied to the session an event carries. *)
Definition map_event (f : Game → Game) (e : Event) : Event :=
  match e with
  | EvError message => EvError message
  | EvGameCreated gameId playerId g => EvGameCreated gameId playerId (f g)
  | EvGameJoined gameId playerId g => EvGameJoined gameId playerId (f g)
  | EvPlayerJoined player g => EvPlayerJoined player (f g)
  | EvGameStarted g => EvGameStarted (f g)
  | EvBidMade bid g nextPlayerId => EvBidMade bid (f g) nextPlayerId
  | EvBluffCalled g bluffCaller loser total bidValue =>
      EvBluffCalled (f g) bluffCaller loser total bidValue
  | EvGameOver g winnerId => EvGameOver (f g) winnerId
  | EvNewRound g => EvNewRound (f g)
  | EvComputerAdded g => EvComputerAdded (f g)
  | EvPlayerLeft gameId playerId => EvPlayerLeft gameId playerId
  end.

(** What a handler did, the phase flags of the session it leaves and of the
    sessions it sends set aside: the errors, the events and their other
    payload, every other field of the session, and the timers. *)
Definition phaseless (e : Effect) : Effect :=
  mkEffect (in_phase false false (eff_game e))
    (map_event (in_phase false false) <$> eff_events e)
    (eff_timers e).

(** ** Vocabulary of the re-roll *)




(** ** Vocabulary of the lower bound *)



(** * Properties *)

(** ** Bidding *)

Lemma invalidBid_isHigher currentBid count value :
  invalidBid currentBid count value = false ↔ isHigher count value currentBid.
Proof.
  destruct currentBid as [cur|]; simpl; [|tauto].
  rewrite orb_false_iff, andb_false_iff, Z.ltb_ge, Z.eqb_neq, Z.leb_gt. lia.
Qed.

Lemma findIndex_found (P : Player → Prop) `{∀ p, Decision (P p)} ps i p :
  list_find P ps = Some (i, p) → findIndex P ps = Z.of_nat i.
Proof. unfold findIndex. by intros ->. Qed.

Lemma playerAt_nat ps (i : nat) : playerAt ps (Z.of_nat i) = ps !! i.
Proof.
  unfold playerAt. destruct (Z.ltb_spec (Z.of_nat i) 0); [lia|].
  by rewrite Nat2Z.id.
Qed.

(** The index [switchTurns] hands the turn to is an index of the array. *)
Lemma switchTurns_next playerId ps i p :
  list_find (λ q, Player.id q = playerId) ps = Some (i, p) →
  ∃ j : nat, (switchTurns playerId ps).1 = Z.of_nat j ∧ (j < length ps)%nat.
Proof.
  intros Hfind. unfold switchTurns. simpl.
  rewrite (findIndex_found _ _ _ _ Hfind).
  apply list_find_Some in Hfind as (Hi & _ & _).
  apply lookup_lt_Some in Hi.
  exists (Z.to_nat (Z.rem (Z.of_nat i + 1) (Z.of_nat (length ps)))).
  assert (0 ≤ Z.rem (Z.of_nat i + 1) (Z.of_nat (length ps)) < Z.of_nat (length ps)).
  { apply Z.rem_bound_pos; lia. }
  split; lia.
Qed.

Lemma switchTurns_length playerId ps : length (switchTurns playerId ps).2 = length ps.
Proof. unfold switchTurns. simpl. by rewrite length_imap. Qed.

(** What [makeBid] does for the player who holds the turn. *)
Lemma makeBid_by_turn_holder games gameId game playerId i player count value :
  games !! gameId = Some game →
  list_find (λ p, Player.id p = playerId) (Game.players game) = Some (i, player) →
  Player.isCurrentTurn player = true →
  let o := makeBid games gameId playerId count value in
  (isHigher count value (Game.currentBid game) →
     bid_accepted o gameId (Bid.mk count value playerId))
  ∧ (¬ isHigher count value (Game.currentBid game) →
     rejected (out_events o) ∧ out_games o = games).
Proof.
  intros Hgame Hfind Hturn. unfold makeBid, found, makeBid_on.
  rewrite Hgame, Hfind, Hturn. cbn [negb].
  destruct (invalidBid (Game.currentBid game) count value) eqn:Hinv.
  - split.
    + intros Hhi. apply invalidBid_isHigher in Hhi. congruence.
    + intros _. split; [by eexists|]. simpl. by apply insert_id.
  - split; [|intros Hno; by apply invalidBid_isHigher in Hinv].
    intros _. cbn [Game.players Game.set_currentBid].
    destruct (switchTurns_next _ _ _ _ Hfind) as (j & Hj & Hlt).
    pose proof (switchTurns_length playerId (Game.players game)) as Hlen.
    destruct (switchTurns playerId (Game.players game)) as [next ps] eqn:Hsw.
    cbn [fst snd] in *. subst next.
    destruct (lookup_lt_is_Some_2 ps j) as [q Hq]; [lia|].
    unfold bid_accepted, commit, bidMade.
    cbn [out_games out_events eff_game eff_events Game.players Game.set_players].
    rewrite playerAt_nat, Hq.
    eexists _, _. split; [apply lookup_insert_eq|]. done.
Qed.

(** C3. For the participant who holds the turn, [makeBid] applies the
    ordering of bids and nothing else: with no current bid every candidate
    passes; with a current bid the candidate [(count, value)] is accepted if
    and only if [count > currentBid.count], or [count = currentBid.count] and
    [value > currentBid.value]; a candidate that fails is answered with an
    error and leaves the registry, hence [currentBid], as it was. *)
Theorem makeBid_ordering games gameId game playerId i player count value :
  games !! gameId = Some game →
  list_find (λ p, Player.id p = playerId) (Game.players game) = Some (i, player) →
  Player.isCurrentTurn player = true →
  let o := makeBid games gameId playerId count value in
  (Game.currentBid game = None → bid_accepted o gameId (Bid.mk count value playerId))
  ∧ (∀ cur, Game.currentBid game = Some cur →
       (bid_accepted o gameId (Bid.mk count value playerId)
        ↔ count > Bid.count cur ∨ (count = Bid.count cur ∧ value > Bid.value cur))
       ∧ (¬ (count > Bid.count cur ∨ (count = Bid.count cur ∧ value > Bid.value cur)) →
          rejected (out_events o) ∧ out_games o = games
          ∧ out_games o !! gameId = Some game)).
Proof.
  intros Hgame Hfind Hturn o.
  destruct (makeBid_by_turn_holder games gameId game playerId i player count value
              Hgame Hfind Hturn) as [Hyes Hno].
  fold o in Hyes, Hno. split.
  - intros Hnone. apply Hyes. by rewrite Hnone.
  - intros cur Hcur. rewrite Hcur in Hyes, Hno. simpl in Hyes, Hno.
    split; [split|].
    + intros (game' & nextId & _ & _ & Hev).
      destruct (decide (count > Bid.count cur
                        ∨ (count = Bid.count cur ∧ value > Bid.value cur)))
        as [|Hn]; [done|].
      destruct (Hno Hn) as [[message Hmsg] _]. congruence.
    + apply Hyes.
    + intros Hn. destruct (Hno Hn) as [Hrej Hsame].
      split; [done|]. split; [done|]. by rewrite Hsame.
Qed.

Lemma makeBid_ordering_witness :
  games active !! "100000" = session active "100000"
  ∧ bid_accepted (makeBid (games active) "100000" "2000000" 3 4) "100000"
      (Bid.mk 3 4 "2000000").
Proof.
  split; [reflexivity|].
  refine (proj1 (makeBid_ordering (games active) "100000"
                   (Game.mk "100000"
                      [Player.mk "2000000" "Ann" [1; 1; 1; 1; 1] 5 true "sA";
                       Player.mk "3000000" "Bob" [1; 1; 1; 1; 1] 5 false "sB"]
                      None true false None false)
                   "2000000" O
                   (Player.mk "2000000" "Ann" [1; 1; 1; 1; 1] 5 true "sA")
                   3 4 _ _ _) _);
    vm_compute; reflexivity.
Defined.

(** ** Commands without the turn *)

(** Without the turn [makeBid] ends in one of its two first errors. *)
Lemma makeBid_on_without_turn game gameId playerId count value :
  (∀ i p, list_find (λ p, Player.id p = playerId) (Game.players game) = Some (i, p) →
          Player.isCurrentTurn p = false) →
  makeBid_on game gameId playerId count value
  = fail game
      (if list_find (λ p, Player.id p = playerId) (Game.players game) is Some _
       then "Not your turn" else "Player not found").
Proof.
  intros Hturn. unfold makeBid_on.
  destruct (list_find _ _) as [[i p]|] eqn:Hfind; [|done].
  by rewrite (Hturn i p eq_refl).
Qed.

(** So does [callBluff], after its check of the current bid. *)
Lemma callBluff_on_without_turn game gameId playerId r :
  (∀ i p, list_find (λ p, Player.id p = playerId) (Game.players game) = Some (i, p) →
          Player.isCurrentTurn p = false) →
  callBluff_on game gameId playerId r
  = fail game
      (if Game.currentBid game is Some _ then
         if list_find (λ p, Player.id p = playerId) (Game.players game) is Some _
         then "Not your turn" else "Player not found"
       else "No bid to call bluff on").
Proof.
  intros Hturn. unfold callBluff_on.
  destruct (Game.currentBid game) as [bid|]; [|done].
  destruct (list_find _ _) as [[i p]|] eqn:Hfind; [|done].
  by rewrite (Hturn i p eq_refl).
Qed.

Lemma commit_fail games gameId game message :
  games !! gameId = Some game →
  commit games gameId (fail game message) = reject games message.
Proof. intros Hgame. unfold commit, reject. simpl. by rewrite insert_id. Qed.

Lemma rejected_reject games message : rejected (out_events (reject games message)).
Proof. by exists message. Qed.

Lemma list_find_holds_no_turn (P : Player → Prop) `{∀ p, Decision (P p)} ps i p :
  nobody_holds_turn ps → list_find P ps = Some (i, p) → Player.isCurrentTurn p = false.
Proof.
  intros Hnone Hfind. apply list_find_Some in Hfind as (Hi & _ & _).
  apply Hnone. by eapply list_elem_of_lookup_2.
Qed.

(** ** No range check on bids *)

(** C7, as amended. [makeBid] checks no range: for the participant who holds
    the turn, a bid whose count is below 1 or whose value is outside 1..6 is
    treated like any other bid.  It becomes the current bid when it is
    higher than the current one (or there is none), and it is answered with
    an error, the registry unchanged, only when it fails that ordering. *)
Theorem makeBid_out_of_range games gameId game playerId i player count value :
  games !! gameId = Some game →
  list_find (λ p, Player.id p = playerId) (Game.players game) = Some (i, player) →
  Player.isCurrentTurn player = true →
  count < 1 ∨ value < 1 ∨ 6 < value →
  let o := makeBid games gameId playerId count value in
  (isHigher count value (Game.currentBid game) →
     bid_accepted o gameId (Bid.mk count value playerId))
  ∧ (¬ isHigher count value (Game.currentBid game) →
     rejected (out_events o) ∧ out_games o = games).
Proof.
  intros Hgame Hfind Hturn _.
  exact (makeBid_by_turn_holder games gameId game playerId i player count value
           Hgame Hfind Hturn).
Qed.

Lemma makeBid_out_of_range_witness :
  (-2 < 1 ∨ 9 < 1 ∨ 6 < 9)
  ∧ bid_accepted (makeBid (games active) "100000" "2000000" (-2) 9) "100000"
      (Bid.mk (-2) 9 "2000000").
Proof.
  split; [lia|].
  refine (proj1 (makeBid_out_of_range (games active) "100000"
                   (Game.mk "100000"
                      [Player.mk "2000000" "Ann" [1; 1; 1; 1; 1] 5 true "sA";
                       Player.mk "3000000" "Bob" [1; 1; 1; 1; 1] 5 false "sB"]
                      None true false None false)
                   "2000000" O
                   (Player.mk "2000000" "Ann" [1; 1; 1; 1; 1] 5 true "sA")
                   (-2) 9 _ _ _ _) _);
    [vm_compute; reflexivity..|lia|exact I].
Defined.

(** C7, counterexample. Ann opens with zero dice of value 7, and Bob raises
    the bid of two 3s to two 9s: both bids become the current bid. *)
Lemma out_of_range_bids_taken :
  bid_accepted (makeBid (games active) "100000" "2000000" 0 7) "100000"
    (Bid.mk 0 7 "2000000")
  ∧ Game.currentBid <$> session (run active [ann_bids 2 3]) "100000"
    = Some (Some (Bid.mk 2 3 "2000000"))
  ∧ bid_accepted
      (makeBid (games (run active [ann_bids 2 3])) "100000" "3000000" 2 9) "100000"
      (Bid.mk 2 9 "3000000").
Proof.
  split; [|split; [reflexivity|]];
    (eexists _, _; vm_compute; repeat split; reflexivity).
Qed.

(** ** Starting a session *)

(** C8, as amended. [startGame] checks that the session exists and has two
    participants, and nothing else.  With fewer than two participants it is
    answered with an error and the registry is unchanged.  Otherwise it is
    accepted, whether or not the session has started already: [gameStarted]
    is set, the first participant gets the turn, and every other
    participant, with his turn flag, and every other field stay as they
    were. *)
Theorem startGame_checks_seats_only games gameId game :
  games !! gameId = Some game →
  let o := startGame games gameId in
  ((length (Game.players game) < 2)%nat →
     rejected (out_events o) ∧ out_games o = games)
  ∧ ((2 ≤ length (Game.players game))%nat →
     ∃ game' first,
       out_games o = <[gameId := game']> games
       ∧ out_events o = [EvGameStarted game']
       ∧ Game.gameStarted game' = true
       ∧ Game.players game !! O = Some first
       ∧ Game.players game'
         = Player.set_isCurrentTurn true first :: drop 1 (Game.players game)
       ∧ Game.currentBid game' = Game.currentBid game
       ∧ Game.gameOver game' = Game.gameOver game
       ∧ Game.winner game' = Game.winner game
       ∧ Game.showDice game' = Game.showDice game).
Proof.
  intros Hgame o. unfold o, startGame, found, startGame_on. rewrite Hgame.
  case_bool_decide as Hlen; split; try lia.
  - intros _. rewrite (commit_fail _ _ _ _ Hgame). split; [apply rejected_reject|done].
  - intros _. destruct (Game.players game) as [|first rest] eqn:Hps; [simpl in *; lia|].
    eexists _, first. split; [reflexivity|]. simpl. rewrite Hps. simpl.
    rewrite drop_0. done.
Qed.

Lemma startGame_checks_seats_only_witness :
  Game.gameStarted <$> session active "100000" = Some true
  ∧ ∃ game',
      out_events (startGame (games active) "100000") = [EvGameStarted game'].
Proof.
  split; [reflexivity|].
  destruct (startGame_checks_seats_only (games active) "100000"
              (Game.mk "100000"
                 [Player.mk "2000000" "Ann" [1; 1; 1; 1; 1] 5 true "sA";
                  Player.mk "3000000" "Bob" [1; 1; 1; 1; 1] 5 false "sB"]
                 None true false None false)) as [_ Hstart].
  - vm_compute; reflexivity.
  - destruct Hstart as (game' & first & _ & Hev & _); [simpl; lia|].
    by exists game'.
Defined.

(** C8, counterexample. The session has started and the turn is Bob's; a
    second [startGame] is not answered with an error, and gives the turn to
    Ann as well. *)
Lemma startGame_again_accepted :
  let s := run active [ann_bids 1 1] in
  Game.gameStarted <$> session s "100000" = Some true
  ∧ turns <$> session s "100000" = Some [false; true]
  ∧ ¬ rejected (out_events (startGame (games s) "100000"))
  ∧ turns <$> out_games (startGame (games s) "100000") !! "100000"
    = Some [true; true].
Proof.
  split; [reflexivity|]. split; [reflexivity|]. split; [|reflexivity].
  intros [message Hmsg]. vm_compute in Hmsg. discriminate Hmsg.
Qed.

(** ** Errors and the state *)

(** C9, at the failing input. Ann bids and leaves; Bob, who holds the turn,
    calls the bluff.  The bidder is no longer found: the handler answers
    with the error [Player not found], after it has set [showDice]. *)
Theorem callBluff_error_after_reveal :
  let s := run active [ann_bids 1 1; ann_leaves] in
  let o := callBluff (games s) "100000" "3000000" zeros in
  Game.showDice <$> session s "100000" = Some false
  ∧ out_events o = [EvError "Player not found"]
  ∧ Game.showDice <$> out_games o !! "100000" = Some true
  ∧ out_games o ≠ games s.
Proof.
  split; [reflexivity|]. split; [reflexivity|]. split; [reflexivity|].
  intros Heq.
  assert (Game.showDice <$> out_games
            (callBluff (games (run active [ann_bids 1 1; ann_leaves]))
               "100000" "3000000" zeros) !! "100000"
          = Some false) as H by (rewrite Heq; reflexivity).
  vm_compute in H. discriminate H.
Qed.

(** ** Leaving a session *)

Lemma disconnect_lookup games socket gameId :
  out_games (disconnect games socket) !! gameId
  = games !! gameId ≫= disconnect_from socket.
Proof. unfold disconnect. simpl. apply lookup_omap. Qed.

(** When nobody holds the turn, every bid and every bluff call is refused
    and changes nothing. *)
Lemma stuck_without_turn games gameId game playerId count value r :
  games !! gameId = Some game →
  nobody_holds_turn (Game.players game) →
  (makeBid games gameId playerId count value
   = reject games
       (if list_find (λ p, Player.id p = playerId) (Game.players game) is Some _
        then "Not your turn" else "Player not found"))
  ∧ (callBluff games gameId playerId r
     = reject games
         (if Game.currentBid game is Some _ then
            if list_find (λ p, Player.id p = playerId) (Game.players game) is Some _
            then "Not your turn" else "Player not found"
          else "No bid to call bluff on")).
Proof.
  intros Hgame Hnone.
  assert (∀ i p, list_find (λ p, Player.id p = playerId) (Game.players game) = Some (i, p) →
                 Player.isCurrentTurn p = false) as Hturn.
  { intros i p. by apply list_find_holds_no_turn. }
  unfold makeBid, callBluff, found. rewrite Hgame.
  rewrite (makeBid_on_without_turn _ _ _ _ _ Hturn).
  rewrite (callBluff_on_without_turn _ _ _ _ Hturn).
  by rewrite !(commit_fail _ _ _ _ Hgame).
Qed.

Lemma list_find_id_member ps (p : Player) :
  p ∈ ps → is_Some (list_find (λ q, Player.id q = Player.id p) ps).
Proof.
  intros Hin. apply list_elem_of_lookup in Hin as [i Hi].
  destruct (list_find _ ps) as [[j q]|] eqn:Hfind; [by eexists|].
  rewrite list_find_None in Hfind. rewrite Forall_lookup in Hfind.
  by destruct (Hfind i p Hi).
Qed.

(** C10, as amended. [disconnect] only splices the first participant of the
    socket out of the session and does not touch the turn.  If that
    participant was the only one holding the turn and somebody else remains,
    nobody holds the turn afterwards; in that state a bid of a remaining
    participant is answered with [Not your turn], a bluff call with
    [Not your turn] or, when there is no current bid, with
    [No bid to call bluff on], and neither changes the registry. *)
Theorem disconnect_of_turn_holder games gameId game socket i leaver :
  games !! gameId = Some game →
  list_find (λ p, Player.socketId p = socket) (Game.players game) = Some (i, leaver) →
  Player.isCurrentTurn leaver = true →
  (∀ j q, Game.players game !! j = Some q → j ≠ i → Player.isCurrentTurn q = false) →
  (2 ≤ length (Game.players game))%nat →
  let games' := out_games (disconnect games socket) in
  ∃ game',
    games' !! gameId = Some game'
    ∧ game' = Game.set_players (delete i (Game.players game)) game
    ∧ nobody_holds_turn (Game.players game')
    ∧ ∀ p count value r,
        p ∈ Game.players game' →
        makeBid games' gameId (Player.id p) count value = reject games' "Not your turn"
        ∧ callBluff games' gameId (Player.id p) r
          = reject games'
              (if Game.currentBid game is Some _ then "Not your turn"
               else "No bid to call bluff on").
Proof.
  intros Hgame Hfind Hturn Hsole Hlen games'.
  exists (Game.set_players (delete i (Game.players game)) game).
  assert (games' !! gameId
          = Some (Game.set_players (delete i (Game.players game)) game)) as Hgame'.
  { unfold games'. rewrite disconnect_lookup, Hgame. simpl.
    unfold disconnect_from. rewrite Hfind. simpl.
    case_bool_decide as Hempty; [|done].
    apply list_find_Some in Hfind as (Hi & _).
    simpl in Hempty. rewrite length_delete in Hempty by (by eexists). lia. }
  assert (nobody_holds_turn (delete i (Game.players game))) as Hnone.
  { intros q Hq. apply list_elem_of_lookup in Hq as [j Hj].
    destruct (decide (j < i)%nat).
    - rewrite list_lookup_delete_lt in Hj by done. apply (Hsole j q Hj). lia.
    - rewrite list_lookup_delete_ge in Hj by lia. apply (Hsole (S j) q Hj). lia. }
  split; [done|]. split; [done|]. split; [done|].
  intros p count value r Hp.
  destruct (stuck_without_turn games' gameId _ (Player.id p) count value r Hgame' Hnone)
    as [Hbid Hcall].
  cbn [Game.players Game.set_players Game.currentBid] in Hp, Hbid, Hcall.
  destruct (list_find_id_member _ p Hp) as [found Hfound].
  rewrite Hfound in Hbid, Hcall. rewrite Hbid, Hcall.
  split; [done|]. by destruct (Game.currentBid game).
Qed.

Lemma disconnect_of_turn_holder_witness :
  games active !! "100000" = Some active_game
  ∧ (2 ≤ length (Game.players active_game))%nat
  ∧ ∃ game',
      out_games (disconnect (games active) "sA") !! "100000" = Some game'
      ∧ nobody_holds_turn (Game.players game').
Proof.
  split; [vm_compute; reflexivity|]. split; [simpl; lia|].
  destruct (disconnect_of_turn_holder (games active) "100000" active_game "sA" O ann)
    as (game' & Hgame' & _ & Hnone & _).
  - vm_compute; reflexivity.
  - vm_compute; reflexivity.
  - reflexivity.
  - intros [|[|j]] q Hq Hj; [done| |done]. by injection Hq as <-.
  - simpl; lia.
  - by exists game'.
Defined.

(** C10, counterexample. Ann holds the turn of the started session and
    leaves; Bob remains and nobody holds the turn.  His bluff call is
    answered with [No bid to call bluff on], not with [Not your turn]; and
    the session is not stuck: once the computer has taken the free seat,
    [startGame] gives Bob the turn and his bid is taken. *)
Lemma session_resumes_after_disconnect :
  let s := run active [ann_leaves] in
  let s' := run s [Receive (AddComputer "sB" "100000") (draws [4%nat]);
                   Receive (StartGame "sB" "100000") zeros] in
  Game.gameStarted <$> session active "100000" = Some true
  ∧ Game.gameOver <$> session active "100000" = Some false
  ∧ turns <$> session active "100000" = Some [true; false]
  ∧ turns <$> session s "100000" = Some [false]
  ∧ out_events (callBluff (games s) "100000" "3000000" zeros)
    = [EvError "No bid to call bluff on"]
  ∧ turns <$> session s' "100000" = Some [true; false]
  ∧ bid_accepted (makeBid (games s') "100000" "3000000" 1 1) "100000"
      (Bid.mk 1 1 "3000000").
Proof.
  repeat (split; [reflexivity|]).
  eexists _, _. vm_compute. repeat split; reflexivity.
Qed.

(** ** Rolling dice *)

Lemma rollDice_from_length n r : length (rollDice_from n r).1 = n.
Proof.
  revert r. induction n as [|n IH]; intros r; [done|].
  simpl. specialize (IH (next r)).
  destruct (rollDice_from n (next r)) as [ds r2]. simpl in *. by rewrite IH.
Qed.

Lemma rollDice_from_faces n r d : d ∈ (rollDice_from n r).1 → 1 ≤ d ≤ 6.
Proof.
  revert r. induction n as [|n IH]; intros r; simpl.
  - by intros ?%elem_of_nil.
  - specialize (IH (next r)).
    destruct (rollDice_from n (next r)) as [ds r2]. simpl in *.
    intros [->|Hin]%elem_of_cons; [|by apply IH].
    pose proof (Nat.mod_upper_bound (r O) 6). lia.
Qed.

(** A rolled hand has as many dice as asked for, each showing 1 to 6. *)
Lemma rolled_hand n hand :
  rolled n hand → length hand = Z.to_nat n ∧ ∀ d, d ∈ hand → 1 ≤ d ≤ 6.
Proof.
  intros [r ->]. unfold rollDice. split.
  - apply rollDice_from_length.
  - apply rollDice_from_faces.
Qed.






(** ** Resolving a bluff *)

Lemma totalDiceWithValue_sum v ps : totalDiceWithValue v ps = totalMatching v ps.
Proof.
  unfold totalDiceWithValue, totalMatching.
  assert (∀ acc, fold_left (λ count player, count + countValue v (Player.dice player)) ps acc
                 = acc + foldr Z.add 0 ((λ p, countValue v (Player.dice p)) <$> ps)) as H.
  { induction ps as [|p ps IH]; intros acc; [simpl; lia|].
    cbn [fold_left]. rewrite fmap_cons. cbn [foldr]. rewrite IH. lia. }
  rewrite H. lia.
Qed.

Lemma loseDie_lost loser r : lost_a_die loser (loseDie loser r).1.
Proof.
  unfold loseDie, lost_a_die.
  destruct (0 <? Player.diceCount loser - 1) eqn:Hpos.
  - destruct (rollDice (Player.diceCount loser - 1) r) as [hand r1] eqn:Hroll.
    simpl. rewrite Hpos. repeat split. exists r. by rewrite Hroll.
  - simpl. rewrite Hpos. done.
Qed.

Lemma rerollOthers_length loserId ps r :
  length (rerollOthers loserId ps r).1 = length ps.
Proof.
  revert r. induction ps as [|p ps IH]; intros r; [done|]. simpl.
  destruct (bool_decide (Player.id p ≠ loserId) && (0 <? Player.diceCount p)).
  - destruct (rollDice (Player.diceCount p) r) as [hand r1].
    specialize (IH r1). destruct (rerollOthers loserId ps r1). simpl in *. by rewrite IH.
  - specialize (IH r). destruct (rerollOthers loserId ps r). simpl in *. by rewrite IH.
Qed.

(** Who is rolled anew by [rerollOthers], and who is left alone. *)
Lemma rerollOthers_lookup loserId ps r j p :
  ps !! j = Some p →
  ∃ p', (rerollOthers loserId ps r).1 !! j = Some p'
        ∧ if bool_decide (Player.id p ≠ loserId) && (0 <? Player.diceCount p)
          then rerolled p p' else p' = p.
Proof.
  revert r j. induction ps as [|q ps IH]; intros r j Hj; [done|].
  simpl. destruct j as [|j]; simpl in Hj.
  - injection Hj as ->.
    destruct (bool_decide (Player.id p ≠ loserId) && (0 <? Player.diceCount p)).
    + destruct (rollDice (Player.diceCount p) r) as [hand r1] eqn:Hroll.
      destruct (rerollOthers loserId ps r1). simpl.
      eexists. split; [done|]. exists hand. split; [|done].
      exists r. by rewrite Hroll.
    + destruct (rerollOthers loserId ps r). simpl. by eexists.
  - destruct (bool_decide (Player.id q ≠ loserId) && (0 <? Player.diceCount q)).
    + destruct (rollDice (Player.diceCount q) r) as [hand r1].
      destruct (IH r1 j Hj) as (p' & Hp' & Hcase).
      destruct (rerollOthers loserId ps r1). simpl in *. by exists p'.
    + destruct (IH r j Hj) as (p' & Hp' & Hcase).
      destruct (rerollOthers loserId ps r). simpl in *. by exists p'.
Qed.

(** The session after [settleBluff], its first event and its timers. *)
Lemma settleBluff_effect game bid total li loser callerId newRound r :
  let e := settleBluff game bid total li loser callerId newRound r in
  let loser' := (loseDie loser r).1 in
  let ps' := (rerollOthers (Player.id loser') (<[li := loser']> (Game.players game))
                (loseDie loser r).2).1 in
  Game.players (eff_game e) = ps'
  ∧ Game.currentBid (eff_game e) = Game.currentBid game
  ∧ Game.showDice (eff_game e) = Game.showDice game
  ∧ Game.gameStarted (eff_game e) = Game.gameStarted game
  ∧ (∃ snapshot,
       head (eff_events e)
       = Some (EvBluffCalled snapshot callerId (Player.id loser') total (Bid.value bid)))
  ∧ eff_timers e
    = if existsb (λ p, Player.diceCount p =? 0) ps' then [] else [newRound].
Proof.
  unfold settleBluff. simpl.
  destruct (loseDie loser r) as [loser' r1]. simpl.
  destruct (rerollOthers (Player.id loser') (<[li:=loser']> (Game.players game)) r1)
    as [ps2 r2]. simpl.
  destruct (existsb _ ps2); [destruct (find _ ps2)|]; simpl; eauto 10.
Qed.



(** What [callBluff] does once all its checks have passed. *)
Lemma callBluff_on_settles game gameId bid playerId ci challenger bi bidder r :
  Game.currentBid game = Some bid →
  list_find (λ p, Player.id p = playerId) (Game.players game) = Some (ci, challenger) →
  Player.isCurrentTurn challenger = true →
  list_find (λ p, Player.id p = Bid.playerId bid) (Game.players game) = Some (bi, bidder) →
  let total := totalMatching (Bid.value bid) (Game.players game) in
  let challengerLoses := bool_decide (Bid.count bid ≤ total) in
  callBluff_on game gameId playerId r
  = settleBluff (Game.set_showDice true game) bid total
      (if challengerLoses then ci else bi)
      (if challengerLoses then challenger else bidder)
      playerId (TNewRound gameId playerId (Player.name challenger)) r.
Proof.
  intros Hbid Hfind Hturn Hbidder total challengerLoses.
  unfold callBluff_on. rewrite Hbid, Hfind, Hturn. simpl.
  rewrite Hbidder, Hfind, totalDiceWithValue_sum. fold total.
  apply list_find_Some in Hfind as (_ & -> & _).
  unfold challengerLoses. rewrite Z.geb_leb.
  destruct (Z.leb_spec (Bid.count bid) total).
  - by rewrite bool_decide_eq_true_2 by lia.
  - by rewrite bool_decide_eq_false_2 by lia.
Qed.








(** ** The phase is not read *)

Lemma makeBid_on_phase started over game gameId playerId count value :
  phaseless (makeBid_on (in_phase started over game) gameId playerId count value)
  = phaseless (makeBid_on game gameId playerId count value).
Proof.
  destruct game as [gid ps cur gs go w sd].
  unfold makeBid_on, in_phase, phaseless, bidMade. cbn.
  destruct (list_find _ ps) as [[i p]|]; [|done].
  destruct (negb _); [done|]. destruct (invalidBid _ _ _); [done|].
  destruct (playerAt _ _) as [q|]; [|reflexivity]. cbn.
  by repeat case_match.
Qed.

Lemma callBluff_on_phase started over game gameId playerId r :
  phaseless (callBluff_on (in_phase started over game) gameId playerId r)
  = phaseless (callBluff_on game gameId playerId r).
Proof.
  destruct game as [gid ps cur gs go w sd].
  unfold callBluff_on, in_phase, phaseless. cbn.
  destruct cur as [bid|]; [|done].
  destruct (list_find (λ p, Player.id p = playerId) ps) as [[ci challenger]|]; [|done].
  destruct (negb _); [done|].
  destruct (list_find _ ps) as [[bi bidder]|]; [|done].
  destruct (_ >=? _); unfold settleBluff; cbn;
    destruct (loseDie _ r) as [loser' r1];
    destruct (rerollOthers _ _ r1) as [ps2 r2]; cbn;
    (destruct (existsb _ ps2); [destruct (find _ ps2)|]); done.
Qed.

(** C1, as amended. [makeBid] and [callBluff] never read [gameStarted] or
    [gameOver].  In every session, in the Lobby and after the game is over
    as much as in play: they are answered with an error event and leave the
    registry unchanged when the sender is not a participant who holds the
    turn; what they do (the error or the events, the session they leave, the
    timers) is the same whatever the two flags are set to; and the
    participant who holds the turn is served as in play: a bid that is
    higher than the current one (any bid, if there is none) is taken, and a
    bluff call on a bid whose bidder is in the session is resolved. *)
Theorem bids_need_the_turn games gameId game playerId count value r :
  games !! gameId = Some game →
  ((∀ i p, list_find (λ p, Player.id p = playerId) (Game.players game) = Some (i, p) →
           Player.isCurrentTurn p = false) →
   (rejected (out_events (makeBid games gameId playerId count value))
    ∧ out_games (makeBid games gameId playerId count value) = games)
   ∧ (rejected (out_events (callBluff games gameId playerId r))
      ∧ out_games (callBluff games gameId playerId r) = games))
  ∧ (∀ started over,
       phaseless (makeBid_on (in_phase started over game) gameId playerId count value)
       = phaseless (makeBid_on game gameId playerId count value)
       ∧ phaseless (callBluff_on (in_phase started over game) gameId playerId r)
         = phaseless (callBluff_on game gameId playerId r))
  ∧ (∀ i p, list_find (λ p, Player.id p = playerId) (Game.players game) = Some (i, p) →
            Player.isCurrentTurn p = true →
            (isHigher count value (Game.currentBid game) →
             bid_accepted (makeBid games gameId playerId count value) gameId
               (Bid.mk count value playerId))
            ∧ (∀ bid bi bidder,
                 Game.currentBid game = Some bid →
                 list_find (λ q, Player.id q = Bid.playerId bid) (Game.players game)
                 = Some (bi, bidder) →
                 ∃ snapshot loserId total,
                   head (out_events (callBluff games gameId playerId r))
                   = Some (EvBluffCalled snapshot playerId loserId total
                             (Bid.value bid)))).
Proof.
  intros Hgame. split; [|split].
  - intros Hturn. unfold makeBid, callBluff, found. rewrite Hgame.
    rewrite (makeBid_on_without_turn _ _ _ _ _ Hturn).
    rewrite (callBluff_on_without_turn _ _ _ _ Hturn).
    rewrite !(commit_fail _ _ _ _ Hgame).
    split; (split; [apply rejected_reject|done]).
  - intros started over.
    split; [apply makeBid_on_phase|apply callBluff_on_phase].
  - intros i p Hfind Hturn. split.
    + apply (makeBid_by_turn_holder games gameId game playerId i p count value
               Hgame Hfind Hturn).
    + intros bid bi bidder Hbid Hbidder.
      unfold callBluff, found. rewrite Hgame.
      rewrite (callBluff_on_settles game gameId bid playerId i p bi bidder r) by done.
      match goal with
      | |- context [settleBluff ?g ?b ?t ?li ?l ?c ?n ?rr] =>
          destruct (settleBluff_effect g b t li l c n rr)
            as (_ & _ & _ & _ & (snapshot & Hhead) & _)
      end.
      cbn [out_events commit]. by eexists _, _, _.
Qed.

(** Bob, who does not hold the turn, bids and calls bluff after the game is
    over. *)
Lemma bids_need_the_turn_witness :
  Game.gameOver <$> session played_out "100000" = Some true
  ∧ rejected (out_events (makeBid (games played_out) "100000" "3000000" 3 1))
  ∧ out_games (callBluff (games played_out) "100000" "3000000" zeros)
    = games played_out.
Proof.
  split; [reflexivity|].
  assert (H : ∀ count value r,
    (rejected (out_events (makeBid (games played_out) "100000" "3000000" count value))
     ∧ out_games (makeBid (games played_out) "100000" "3000000" count value)
       = games played_out)
    ∧ (rejected (out_events (callBluff (games played_out) "100000" "3000000" r))
       ∧ out_games (callBluff (games played_out) "100000" "3000000" r)
         = games played_out)).
  { intros count value r.
    refine (proj1 (bids_need_the_turn (games played_out) "100000"
                     (Game.mk "100000"
                        [Player.mk "2000000" "Ann" [] 0 true "sA";
                         Player.mk "3000000" "Bob" [1; 1; 1; 1; 1] 5 false "sB"]
                        (Some (Bid.mk 2 1 "3000000")) true true (Some "3000000") true)
                     "3000000" count value r _) _).
    - vm_compute; reflexivity.
    - intros i p. vm_compute. intros [= <- <-]. reflexivity. }
  exact (conj (proj1 (proj1 (H 3 1 zeros))) (proj2 (proj2 (H 3 1 zeros)))).
Defined.

(** C1, counterexample. In the Lobby the creator holds the turn and her bid
    is taken; after the game is over the last challenger still holds it, and
    her next bluff call is resolved: it takes her dice count from 0 to -1. *)
Lemma bids_taken_in_lobby_and_after_game_over :
  (Game.gameStarted <$> session alone "100000" = Some false
   ∧ bid_accepted (makeBid (games alone) "100000" "2000000" 1 1) "100000"
       (Bid.mk 1 1 "2000000"))
  ∧ (Game.gameOver <$> session played_out "100000" = Some true
     ∧ diceCounts <$> session played_out "100000" = Some [0; 5]
     ∧ ¬ rejected (out_events (callBluff (games played_out) "100000" "2000000" zeros))
     ∧ diceCounts
         <$> out_games (callBluff (games played_out) "100000" "2000000" zeros) !! "100000"
       = Some [-1; 5]).
Proof.
  split; [split; [reflexivity|]|].
  - eexists _, _. vm_compute. repeat split; reflexivity.
  - split; [reflexivity|]. split; [reflexivity|]. split; [|reflexivity].
    intros [message Hmsg]. vm_compute in Hmsg. discriminate Hmsg.
Qed.

(** ** The estimate of the computer player *)





(** [incr] against the binary64 addition of the machine, inside the exact
    range, at its ends and beyond, where the sum is rounded. *)
Lemma incr_binary64 :
  Forall (λ n, number (incr n) = (number n + 1)%float)
    [0; 5; -1; -7; 2 ^ 53 - 1; 2 ^ 53; 2 ^ 53 + 2; 2 ^ 53 + 4; 2 ^ 53 + 6; 2 ^ 54;
     2 ^ 54 + 4; 2 ^ 55 + 8; 2 ^ 62; - 2 ^ 53; - (2 ^ 53 + 2); - (2 ^ 53 + 4);
     - (2 ^ 53 + 6); - (2 ^ 54 + 4); - 2 ^ 62].
Proof. repeat constructor; vm_compute; reflexivity. Qed.



Lemma computerBids_effect game computerPlayer count value :
  let e := computerBids game computerPlayer count value in
  Game.currentBid (eff_game e) = Some (Bid.mk count value (Player.id computerPlayer))
  ∧ Game.showDice (eff_game e) = Game.showDice game
  ∧ eff_timers e = [].
Proof.
  unfold computerBids.
  destruct (switchTurns _ _) as [nextPlayerIndex ps]. done.
Qed.




(** * The server step by step *)

(** ** A step seen from one session *)

Lemma found_lookup games gameId stray body k :
  out_games (found games gameId stray body) !! k
  = if decide (gameId = k) then eff_game ∘ body <$> games !! gameId else games !! k.
Proof.
  unfold found. destruct (games !! gameId) as [game|] eqn:Hgame; simpl.
  - apply lookup_insert.
  - assert (out_games (if bool_decide (gameId ∈ inherited) then astray games stray
                       else reject games "Game not found") = games) as ->.
    { case_bool_decide; [by destruct stray|done]. }
    case_decide; [by subst|done].
Qed.

Lemma found_timers games gameId stray body t :
  t ∈ out_timers (found games gameId stray body) →
  ∃ game, games !! gameId = Some game ∧ t ∈ eff_timers (body game).
Proof.
  unfold found. destruct (games !! gameId) as [game|]; simpl.
  - by exists game.
  - case_bool_decide; [destruct stray|]; by intros ?%elem_of_nil.
Qed.

Lemma settleBluff_timers game bid total li loser callerId newRound r t :
  t ∈ eff_timers (settleBluff game bid total li loser callerId newRound r) →
  t = newRound.
Proof.
  destruct (settleBluff_effect game bid total li loser callerId newRound r)
    as (_ & _ & _ & _ & _ & ->).
  destruct (existsb _ _); [by intros ?%elem_of_nil|].
  by intros ?%list_elem_of_singleton.
Qed.

Lemma makeBid_on_timers game gameId playerId count value t :
  t ∈ eff_timers (makeBid_on game gameId playerId count value) →
  t = TComputerMove gameId.
Proof.
  unfold makeBid_on.
  destruct (list_find _ _) as [[i p]|]; [|by intros ?%elem_of_nil].
  destruct (negb _); [by intros ?%elem_of_nil|].
  destruct (invalidBid _ _ _); [by intros ?%elem_of_nil|].
  destruct (switchTurns _ _) as [next ps]. simpl. unfold wakeComputer.
  destruct (playerAt _ _); [|by intros ?%elem_of_nil].
  case_bool_decide; [|by intros ?%elem_of_nil].
  by intros ?%list_elem_of_singleton.
Qed.

Lemma callBluff_on_timers game gameId playerId r t :
  t ∈ eff_timers (callBluff_on game gameId playerId r) → timer_game t = gameId.
Proof.
  unfold callBluff_on.
  destruct (Game.currentBid game); [|by intros ?%elem_of_nil].
  destruct (list_find _ _) as [[ci challenger]|]; [|by intros ?%elem_of_nil].
  destruct (negb _); [by intros ?%elem_of_nil|].
  simpl. destruct (list_find _ _) as [[bi bidder]|]; [|by intros ?%elem_of_nil].
  destruct (_ >=? _); by intros ->%settleBluff_timers.
Qed.

Lemma computerBids_timers game computerPlayer count value :
  eff_timers (computerBids game computerPlayer count value) = [].
Proof. by destruct (computerBids_effect game computerPlayer count value) as (_ & _ & ->). Qed.

Lemma computerMove_on_timers game gameId r t :
  t ∈ eff_timers (computerMove_on game gameId r) → timer_game t = gameId.
Proof.
  unfold computerMove_on.
  destruct (Game.currentBid game) as [bid|];
    (destruct (computerToMove game) as [[ci computerPlayer]|];
       [|by intros ?%elem_of_nil]).
  - destruct (computerCallsBluff _ _ _).
    + simpl. destruct (list_find _ _) as [[bi bidder]|]; [|by intros ?%elem_of_nil].
      destruct (_ >=? _); by intros ->%settleBluff_timers.
    + destruct (ensureHigher _ _). rewrite computerBids_timers.
      by intros ?%elem_of_nil.
  - destruct (randomBelow 3 r) as [c r1]. destruct (randomBelow 6 r1) as [v r2].
    rewrite computerBids_timers. by intros ?%elem_of_nil.
Qed.

Lemma fire_on_timers t game r t' :
  t' ∈ eff_timers (fire_on t game r) → timer_game t' = timer_game t.
Proof.
  destruct t as [gameId|gameId challengerId challengerName|gameId computerId]; simpl.
  - apply computerMove_on_timers.
  - case_bool_decide; [|by intros ?%elem_of_nil].
    by intros ->%list_elem_of_singleton.
  - by intros ->%list_elem_of_singleton.
Qed.

(** Every session of the server after a step was created by the step, or
    comes from the session under the same id by a [session_step]. *)
Lemma step_session s a gameId game' :
  games (step s a).1 !! gameId = Some game' →
  (∃ socket playerName r,
     a = Receive (CreateGame socket playerName) r
     ∧ gameId = (generateGameId r).1
     ∧ game' = Game.mk gameId [creator socket playerName (generateGameId r).2]
                 None false false None false)
  ∨ ∃ game ts,
      games s !! gameId = Some game
      ∧ session_step (timers s) gameId game a game' ts.
Proof.
  destruct a as [c r|n r]; simpl.
  - destruct c as [socket playerName|socket gid playerName|socket gid
                  |socket gid playerId count value|socket gid playerId
                  |socket gid|socket]; simpl.
    + unfold createGame. destruct (generateGameId r) as [gid r1]. simpl.
      rewrite lookup_insert. case_decide as Hk.
      * intros [= <-]. left. subst. by eexists _, _, _.
      * intros Hgame. right. exists game', []. split; [done|]. constructor.
    + unfold joinGame. rewrite found_lookup. case_decide as Hk.
      * subst. destruct (games s !! gameId) as [game|]; [|done].
        intros [= <-]. right. exists game, []. split; [done|]. constructor.
      * intros Hgame. right. exists game', []. split; [done|]. constructor.
    + unfold startGame. rewrite found_lookup. case_decide as Hk.
      * subst. destruct (games s !! gameId) as [game|]; [|done].
        intros [= <-]. right. exists game, []. split; [done|]. constructor.
      * intros Hgame. right. exists game', []. split; [done|]. constructor.
    + unfold makeBid. rewrite found_lookup. case_decide as Hk.
      * subst. destruct (games s !! gameId) as [game|]; [|done].
        intros [= <-]. right. eexists game, _. split; [done|]. constructor.
      * intros Hgame. right. exists game', []. split; [done|]. constructor.
    + unfold callBluff. rewrite found_lookup. case_decide as Hk.
      * subst. destruct (games s !! gameId) as [game|]; [|done].
        intros [= <-]. right. eexists game, _. split; [done|]. constructor.
      * intros Hgame. right. exists game', []. split; [done|]. constructor.
    + unfold addComputer. rewrite found_lookup. case_decide as Hk.
      * subst. destruct (games s !! gameId) as [game|]; [|done].
        intros [= <-]. right. exists game, []. split; [done|]. constructor.
      * intros Hgame. right. exists game', []. split; [done|]. constructor.
    + rewrite lookup_omap.
      destruct (games s !! gameId) as [game|]; [|done]. simpl.
      intros Hleft. right. exists game, []. split; [done|]. by constructor.
  - destruct (timers s !! n) as [t|] eqn:Ht; simpl.
    + unfold fire. destruct (games s !! timer_game t) as [game|] eqn:Hgame; simpl.
      * rewrite lookup_insert. case_decide as Hk.
        -- intros [= <-]. subst. right. eexists game, _. split; [done|].
           by constructor.
        -- intros Hgame'. right. exists game', []. split; [done|]. constructor.
      * intros Hgame'. right. exists game', []. split; [done|]. constructor.
    + intros Hgame'. right. exists game', []. split; [done|]. constructor.
Qed.

(** ** What each operation does to the participants *)

Lemma rerollOthers_fmap {B : Type} (f : Player → B) loserId ps r :
  (∀ hand p, f (Player.set_dice hand p) = f p) →
  f <$> (rerollOthers loserId ps r).1 = f <$> ps.
Proof.
  intros Hf. revert r. induction ps as [|p ps IH]; intros r; [done|].
  cbn [rerollOthers].
  destruct (bool_decide (Player.id p ≠ loserId) && (0 <? Player.diceCount p)).
  - destruct (rollDice (Player.diceCount p) r) as [hand r1].
    specialize (IH r1). destruct (rerollOthers loserId ps r1) as [rest r2].
    cbn [fst] in *. by rewrite !fmap_cons, Hf, IH.
  - specialize (IH r). destruct (rerollOthers loserId ps r) as [rest r2].
    cbn [fst] in *. by rewrite !fmap_cons, IH.
Qed.

Lemma insert_same_projection {B : Type} (f : Player → B) (ps : list Player)
    (li : nat) (p p' : Player) :
  ps !! li = Some p → f p' = f p → f <$> <[li := p']> ps = f <$> ps.
Proof.
  intros Hli Hf. rewrite list_fmap_insert, Hf. apply list_insert_id.
  by rewrite list_lookup_fmap, Hli.
Qed.

(** Settling a bluff against the participant at [li] keeps ids, turns, the
    bid and the phase, and takes one die from that participant and from
    nobody else. *)
Lemma settleBluff_shape game bid total li loser callerId newRound r :
  Game.players game !! li = Some loser →
  let game' := eff_game (settleBluff game bid total li loser callerId newRound r) in
  ids game' = ids game
  ∧ turns game' = turns game
  ∧ Game.gameStarted game' = Game.gameStarted game
  ∧ Game.currentBid game' = Game.currentBid game
  ∧ diceCounts game' = <[li := Player.diceCount loser - 1]> (diceCounts game).
Proof.
  intros Hli game'.
  destruct (settleBluff_effect game bid total li loser callerId newRound r)
    as (Hps & Hbid & _ & Hstarted & _).
  fold game' in Hps, Hbid, Hstarted.
  pose proof (loseDie_lost loser r) as (Hcount & _ & Hid & _ & Hturn & _).
  unfold ids, turns, diceCounts. rewrite Hps.
  rewrite !rerollOthers_fmap by done.
  rewrite (insert_same_projection Player.id _ _ loser) by done.
  rewrite (insert_same_projection Player.isCurrentTurn _ _ loser) by done.
  by rewrite list_fmap_insert, Hcount.
Qed.

Lemma switchTurns_shape playerId ps :
  let ps' := (switchTurns playerId ps).2 in
  Player.id <$> ps' = Player.id <$> ps
  ∧ Player.diceCount <$> ps' = Player.diceCount <$> ps
  ∧ single (Player.isCurrentTurn <$> ps').
Proof.
  unfold switchTurns. cbn [snd].
  split; [|split].
  - apply list_eq. intros i. rewrite !list_lookup_fmap, list_lookup_imap.
    by destruct (ps !! i).
  - apply list_eq. intros i. rewrite !list_lookup_fmap, list_lookup_imap.
    by destruct (ps !! i).
  - intros i j. rewrite !list_lookup_fmap, !list_lookup_imap.
    destruct (ps !! i) as [p|]; [|done]. destruct (ps !! j) as [q|]; [|done].
    cbn. intros [= Hi%bool_decide_eq_true] [= Hj%bool_decide_eq_true]. lia.
Qed.

Lemma makeBid_on_shape game gameId playerId count value :
  let e := makeBid_on game gameId playerId count value in
  (eff_game e = game ∧ eff_timers e = []) ∨ bid_shape game (eff_game e).
Proof.
  unfold makeBid_on.
  destruct (list_find _ _) as [[i p]|]; [|by left].
  destruct (negb _); [by left|].
  destruct (invalidBid _ _ _); [by left|].
  right. cbn [Game.players Game.set_currentBid].
  destruct (switchTurns_shape playerId (Game.players game)) as (Hid & Hcount & Hturn).
  destruct (switchTurns playerId (Game.players game)) as [next ps].
  by repeat split.
Qed.

Lemma computerBids_shape game computerPlayer count value :
  bid_shape game (eff_game (computerBids game computerPlayer count value)).
Proof.
  unfold computerBids. cbn [Game.players Game.set_currentBid].
  destruct (switchTurns_shape (Player.id computerPlayer) (Game.players game))
    as (Hid & Hcount & Hturn).
  destruct (switchTurns (Player.id computerPlayer) (Game.players game)) as [next ps].
  by repeat split.
Qed.

Lemma settled_after_reveal game bid total li loser callerId newRound r :
  Game.currentBid game = Some bid →
  Game.players game !! li = Some loser →
  settled_shape game
    (eff_game (settleBluff (Game.set_showDice true game) bid total li loser
                 callerId newRound r)).
Proof.
  intros Hbid Hli. exists li, loser.
  split; [done|]. split; [by rewrite Hbid|].
  by apply (settleBluff_shape (Game.set_showDice true game)).
Qed.

Lemma callBluff_on_shape game gameId playerId r :
  let e := callBluff_on game gameId playerId r in
  (same_shape game (eff_game e) ∧ eff_timers e = [])
  ∨ settled_shape game (eff_game e).
Proof.
  unfold callBluff_on.
  destruct (Game.currentBid game) as [bid|] eqn:Hbid; [|by left].
  cbn [Game.players Game.set_showDice].
  destruct (list_find (λ p, Player.id p = playerId) _)
    as [[ci challenger]|] eqn:Hfind; [|by left].
  destruct (negb _); [by left|].
  destruct (list_find (λ p, Player.id p = Bid.playerId bid) _)
    as [[bi bidder]|] eqn:Hbidder; [|by left].
  right.
  apply list_find_Some in Hfind as (Hci & _). apply list_find_Some in Hbidder as (Hbi & _).
  destruct (_ >=? _); by apply settled_after_reveal.
Qed.

Lemma computerToMove_lookup game ci computerPlayer :
  computerToMove game = Some (ci, computerPlayer) →
  Game.players game !! ci = Some computerPlayer.
Proof.
  unfold computerToMove.
  destruct (list_find _ _) as [[i p]|] eqn:Hfind; [|done].
  destruct (negb _); [done|]. intros [= <- <-].
  by apply list_find_Some in Hfind as (? & _).
Qed.

Lemma computerMove_on_shape game gameId r :
  let e := computerMove_on game gameId r in
  (same_shape game (eff_game e) ∧ eff_timers e = [])
  ∨ (bid_shape game (eff_game e) ∧ eff_timers e = [])
  ∨ settled_shape game (eff_game e).
Proof.
  unfold computerMove_on.
  destruct (Game.currentBid game) as [bid|] eqn:Hbid;
    (destruct (computerToMove game) as [[ci computerPlayer]|] eqn:Hmove;
       [|by left]).
  - destruct (computerCallsBluff _ _ _).
    + cbn [Game.players Game.set_showDice].
      destruct (list_find _ _) as [[bi bidder]|] eqn:Hbidder; [|by left].
      right. right.
      apply computerToMove_lookup in Hmove.
      apply list_find_Some in Hbidder as (Hbi & _).
      destruct (_ >=? _); by apply settled_after_reveal.
    + right. left. destruct (ensureHigher _ _) as [newCount newValue].
      split; [apply computerBids_shape|apply computerBids_timers].
  - right. left.
    destruct (randomBelow 3 r) as [c r1]. destruct (randomBelow 6 r1) as [v r2].
    split; [apply computerBids_shape|apply computerBids_timers].
Qed.

(** A new round keeps ids, dice counts and the phase, clears the bid and
    sets the turn by id. *)
Lemma newRound_on_shape challengerId game :
  let game' := newRound_on challengerId game in
  ids game' = ids game
  ∧ diceCounts game' = diceCounts game
  ∧ Game.gameStarted game' = Game.gameStarted game
  ∧ Game.currentBid game' = None
  ∧ turns game' = (λ p, bool_decide (Player.id p = challengerId)) <$> Game.players game.
Proof.
  unfold newRound_on, ids, diceCounts, turns.
  cbn [Game.players Game.set_players Game.set_currentBid Game.set_showDice
       Game.gameStarted Game.currentBid].
  rewrite <- !list_fmap_compose. done.
Qed.

Lemma joinGame_on_shape game socket gameId playerName r :
  let game' := eff_game (joinGame_on game socket gameId playerName r) in
  game' = game
  ∨ ∃ q, game' = Game.set_players (Game.players game ++ [q]) game
         ∧ Game.gameStarted game = false
         ∧ Player.diceCount q = 5
         ∧ Player.isCurrentTurn q = false
         ∧ Player.id q = (randomId 7 r).1.
Proof.
  unfold joinGame_on.
  destruct (Game.gameStarted game); [by left|].
  case_bool_decide; [by left|].
  right. destruct (randomId 7 r) as [playerId r1].
  destruct (rollDice 5 r1) as [hand r2]. by eexists.
Qed.

Lemma addComputer_on_shape game r :
  let game' := eff_game (addComputer_on game r) in
  game' = game
  ∨ ∃ q, game' = Game.set_players (Game.players game ++ [q]) game
         ∧ Player.diceCount q = 5
         ∧ Player.isCurrentTurn q = false
         ∧ Player.id q = (randomId 7 r).1.
Proof.
  unfold addComputer_on.
  case_bool_decide; [by left|].
  right. destruct (randomId 7 r) as [playerId r1].
  destruct (rollDice 5 r1) as [hand r2]. by eexists.
Qed.

Lemma startGame_on_shape game :
  let game' := eff_game (startGame_on game) in
  game' = game
  ∨ game' = Game.set_players
              (alter (Player.set_isCurrentTurn true) O (Game.players game))
              (Game.set_gameStarted true game).
Proof. unfold startGame_on. case_bool_decide; [by left|by right]. Qed.

Lemma disconnect_from_shape socket game game' :
  disconnect_from socket game = Some game' →
  game' = game ∨ ∃ i, game' = Game.set_players (delete i (Game.players game)) game.
Proof.
  unfold disconnect_from.
  destruct (list_find _ _) as [[i p]|]; [|intros [= <-]; by left].
  case_bool_decide; [done|]. intros [= <-]. right. by exists i.
Qed.

(** ** Dice counts *)



Lemma reachable_run s actions : reachable s → reachable (run s actions).
Proof.
  revert s. induction actions as [|a actions IH]; intros s Hs; [done|].
  apply IH. by constructor.
Qed.






(** ** The turn *)

Lemma single_turns g : single (turns g) → at_most_one_turn g.
Proof.
  intros Hsingle i j p q Hi Hj Hp Hq. apply Hsingle.
  - unfold turns. by rewrite list_lookup_fmap, Hi, <- Hp.
  - unfold turns. by rewrite list_lookup_fmap, Hj, <- Hq.
Qed.

Lemma tidy_transfer g g' :
  ids g' = ids g → turns g' = turns g →
  Game.gameStarted g' = Game.gameStarted g → Game.currentBid g' = Game.currentBid g →
  tidy g → tidy g'.
Proof. unfold tidy. by intros -> -> -> ->. Qed.

Lemma tidy_same_shape g g' : same_shape g g' → tidy g → tidy g'.
Proof.
  intros (Hps & Hstarted & Hbid). apply tidy_transfer; try done.
  - unfold ids. by rewrite Hps.
  - unfold turns. by rewrite Hps.
Qed.

Lemma tidy_settled g g' : settled_shape g g' → tidy g → tidy g'.
Proof.
  intros (li & loser & _ & _ & Hids & Hturns & Hstarted & Hbid & _).
  by apply tidy_transfer.
Qed.

Lemma tidy_bid g g' : bid_shape g g' → Game.gameStarted g = true → tidy g → tidy g'.
Proof.
  intros (Hids & _ & Hsingle & Hstarted) Hg (Hnodup & _ & _).
  unfold tidy. rewrite Hids, Hstarted, Hg. by repeat split.
Qed.

Lemma tidy_seat g q :
  Player.isCurrentTurn q = false → Player.id q ∉ ids g →
  tidy g → tidy (Game.set_players (Game.players g ++ [q]) g).
Proof.
  intros Hq Hfresh (Hnodup & Hsingle & Hlobby).
  assert (∀ i, turns (Game.set_players (Game.players g ++ [q]) g) !! i = Some true →
               turns g !! i = Some true) as Hold.
  { intros i. unfold turns. cbn [Game.players Game.set_players].
    rewrite fmap_app. intros [Hi|[_ Hi]]%lookup_app_Some; [done|].
    cbn in Hi. rewrite Hq in Hi.
    by apply list_lookup_singleton_Some in Hi as [_ ?]. }
  split; [|split].
  - unfold ids in *. cbn [Game.players Game.set_players]. rewrite fmap_app.
    apply NoDup_app. split; [done|]. split; [|apply NoDup_singleton].
    intros x Hx ->%list_elem_of_singleton. by apply Hfresh.
  - intros i j Hi Hj. apply Hsingle; by apply Hold.
  - intros Hstarted. destruct (Hlobby Hstarted) as [Hbid Hfirst].
    split; [done|]. intros i Hi. by apply Hfirst, Hold.
Qed.

Lemma tidy_start g :
  Game.gameStarted g = false → tidy g →
  tidy (Game.set_players
          (alter (Player.set_isCurrentTurn true) O (Game.players g))
          (Game.set_gameStarted true g)).
Proof.
  intros Hlobby (Hnodup & _ & Hfirst). destruct (Hfirst Hlobby) as [_ Hzero].
  split; [|split; [|done]].
  - unfold ids in *. cbn [Game.players Game.set_players Game.set_gameStarted].
    rewrite (list_fmap_alter Player.id (Player.set_isCurrentTurn true) (λ x, x))
      by (apply Forall_forall; intros; reflexivity).
    by rewrite list_alter_id.
  - assert (∀ i, turns (Game.set_players
                          (alter (Player.set_isCurrentTurn true) O (Game.players g))
                          (Game.set_gameStarted true g)) !! i = Some true → i = O)
      as Hall.
    { intros i. unfold turns in *.
      cbn [Game.players Game.set_players Game.set_gameStarted].
      destruct i as [|i]; [done|].
      rewrite list_lookup_fmap, list_lookup_alter_ne by done.
      rewrite <- list_lookup_fmap. apply Hzero. }
    intros i j Hi Hj. by rewrite (Hall i Hi), (Hall j Hj).
Qed.

Lemma tidy_left g i :
  tidy g → tidy (Game.set_players (delete i (Game.players g)) g).
Proof.
  intros (Hnodup & Hsingle & Hlobby).
  unfold tidy, ids, turns in *. cbn [Game.players Game.set_players Game.gameStarted
                                     Game.currentBid].
  rewrite !list_fmap_delete.
  assert (∀ j, delete i (Player.isCurrentTurn <$> Game.players g) !! j = Some true →
               ∃ k, (Player.isCurrentTurn <$> Game.players g) !! k = Some true
                    ∧ ((j < i)%nat ∧ k = j ∨ (i ≤ j)%nat ∧ k = S j)) as Hback.
  { intros j Hj. destruct (decide (j < i)%nat).
    - rewrite list_lookup_delete_lt in Hj by done. exists j. split; [done|lia].
    - rewrite list_lookup_delete_ge in Hj by lia. exists (S j). split; [done|lia]. }
  split; [|split].
  - exact (sublist_NoDup _ _ Hnodup (sublist_delete _ i)).
  - intros j1 j2 H1 H2.
    destruct (Hback j1 H1) as (k1 & Hk1 & ?).
    destruct (Hback j2 H2) as (k2 & Hk2 & ?).
    pose proof (Hsingle k1 k2 Hk1 Hk2). lia.
  - intros Hstarted. destruct (Hlobby Hstarted) as [Hbid Hfirst].
    split; [done|]. intros j Hj.
    destruct (Hback j Hj) as (k & Hk & ?). pose proof (Hfirst k Hk). lia.
Qed.

Lemma tidy_newRound challengerId g :
  Game.gameStarted g = true → tidy g → tidy (newRound_on challengerId g).
Proof.
  intros Hstarted (Hnodup & _ & _).
  destruct (newRound_on_shape challengerId g) as (Hids & _ & Hphase & _ & Hturns).
  unfold tidy. rewrite Hids, Hphase, Hstarted, Hturns.
  split; [done|]. split; [|done].
  assert (∀ i, ((λ p, bool_decide (Player.id p = challengerId)) <$> Game.players g) !! i
               = Some true → ids g !! i = Some challengerId) as Hid.
  { intros i. unfold ids. rewrite !list_lookup_fmap.
    destruct (Game.players g !! i) as [p|]; [|done].
    cbn. by intros [= ->%bool_decide_eq_true]. }
  intros i j Hi Hj.
  by apply (NoDup_lookup (ids g) i j challengerId Hnodup); apply Hid.
Qed.

Lemma tidy_lobby_no_bid g : tidy g → is_Some (Game.currentBid g) → Game.gameStarted g = true.
Proof.
  intros (_ & _ & Hlobby) [bid Hbid].
  destruct (Game.gameStarted g); [done|].
  destruct (Hlobby eq_refl) as [Hnone _]. congruence.
Qed.

(** One orderly step of a tidy session: it stays tidy, it stays started, and
    it has started if the step schedules a timer for it. *)
Lemma step_tidy s a gameId game game' ts :
  games s !! gameId = Some game →
  session_step (timers s) gameId game a game' ts →
  orderly s a → timers_started s → tidy game →
  tidy game'
  ∧ (Game.gameStarted game = true → Game.gameStarted game' = true)
  ∧ (ts ≠ [] → Game.gameStarted game' = true).
Proof.
  intros Hgame Hstep Horderly Htimers Htidy.
  destruct Hstep as [a|socket playerName r|socket r
    |socket playerId count value r|socket playerId r|socket r|socket r game' Hleft
    |n t r Ht Hgid].
  - done.
  - destruct (joinGame_on_shape game socket gameId playerName r)
      as [->|(q & -> & _ & _ & Hq & Hid)]; [done|].
    split; [|done]. apply tidy_seat; [done| |done].
    rewrite Hid. by apply (Horderly game).
  - destruct (startGame_on_shape game) as [->| ->]; [done|].
    split; [|done]. apply tidy_start; [|done]. by apply (Horderly game).
  - pose proof (Horderly game Hgame) as Hstarted.
    destruct (makeBid_on_shape game gameId playerId count value)
      as [[-> ->]|Hshape]; [done|].
    pose proof Hshape as (_ & _ & _ & Hphase).
    split; [by apply (tidy_bid game)|]. by rewrite Hphase.
  - destruct (callBluff_on_shape game gameId playerId r)
      as [[Hshape ->]|Hshape].
    + pose proof Hshape as (_ & Hphase & _).
      split; [by apply (tidy_same_shape game)|]. by rewrite Hphase.
    + pose proof Hshape as (li & loser & _ & Hbid & _ & _ & Hphase & _).
      split; [by apply (tidy_settled game)|]. rewrite Hphase.
      split; [done|]. intros _. by apply tidy_lobby_no_bid.
  - destruct (addComputer_on_shape game r) as [->|(q & -> & _ & Hq & Hid)]; [done|].
    split; [|done]. apply tidy_seat; [done| |done].
    rewrite Hid. by apply (Horderly game).
  - destruct (disconnect_from_shape socket game game' Hleft) as [->|[i ->]]; [done|].
    split; [|done]. by apply tidy_left.
  - assert (Game.gameStarted game = true) as Hstarted.
    { apply (Htimers t); [by eapply list_elem_of_lookup_2|by rewrite Hgid]. }
    destruct t as [gid|gid challengerId challengerName|gid computerId];
      cbn [fire_on eff_game eff_timers].
    + destruct (computerMove_on_shape game gid r)
        as [[Hshape ->]|[[Hshape ->]|Hshape]].
      * pose proof Hshape as (_ & Hphase & _).
        split; [by apply (tidy_same_shape game)|]. by rewrite Hphase.
      * pose proof Hshape as (_ & _ & _ & Hphase).
        split; [by apply (tidy_bid game)|]. by rewrite Hphase.
      * pose proof Hshape as (li & loser & _ & _ & _ & _ & Hphase & _).
        split; [by apply (tidy_settled game)|]. by rewrite Hphase.
    + destruct (newRound_on_shape challengerId game) as (_ & _ & Hphase & _).
      split; [by apply tidy_newRound|]. by rewrite Hphase.
    + destruct (newRound_on_shape computerId game) as (_ & _ & Hphase & _).
      split; [by apply tidy_newRound|]. by rewrite Hphase.
Qed.

Lemma quiet_handlers_schedule_nothing game socket gameId playerName r :
  eff_timers (joinGame_on game socket gameId playerName r) = []
  ∧ eff_timers (startGame_on game) = []
  ∧ eff_timers (addComputer_on game r) = [].
Proof.
  unfold joinGame_on, startGame_on, addComputer_on.
  destruct (randomId 7 r) as [playerId r1]. destruct (rollDice 5 r1) as [hand r2].
  destruct (Game.gameStarted game); repeat case_bool_decide; done.
Qed.

(** Every timer pending after a step was pending before, or was scheduled by
    the step for a session that is in the registry before and after. *)
Lemma step_timers s a t' :
  t' ∈ timers (step s a).1 →
  t' ∈ timers s
  ∨ ∃ game game' ts,
      games s !! timer_game t' = Some game
      ∧ games (step s a).1 !! timer_game t' = Some game'
      ∧ session_step (timers s) (timer_game t') game a game' ts
      ∧ ts ≠ [].
Proof.
  destruct a as [c r|n r]; cbn [step fst timers games].
  - intros [Hold|Hnew]%elem_of_app; [by left|]. right.
    destruct c as [socket playerName|socket gid playerName|socket gid
                  |socket gid playerId count value|socket gid playerId
                  |socket gid|socket]; cbn [handle] in *.
    + unfold createGame in Hnew. destruct (generateGameId r) in Hnew.
      by apply elem_of_nil in Hnew.
    + apply found_timers in Hnew as (game & _ & Hnew).
      destruct (quiet_handlers_schedule_nothing game socket gid playerName r) as (Hq & _).
      rewrite Hq in Hnew. by apply elem_of_nil in Hnew.
    + apply found_timers in Hnew as (game & _ & Hnew).
      destruct (quiet_handlers_schedule_nothing game socket gid "" r) as (_ & Hq & _).
      rewrite Hq in Hnew. by apply elem_of_nil in Hnew.
    + unfold makeBid in *. apply found_timers in Hnew as (game & Hgame & Hnew).
      pose proof (makeBid_on_timers _ _ _ _ _ _ Hnew) as ->. cbn [timer_game].
      eexists game, _, _. split; [done|].
      split; [by rewrite found_lookup, decide_True, Hgame|].
      split; [by constructor|]. intros Hnil. rewrite Hnil in Hnew.
      by apply elem_of_nil in Hnew.
    + unfold callBluff in *. apply found_timers in Hnew as (game & Hgame & Hnew).
      pose proof (callBluff_on_timers _ _ _ _ _ Hnew) as Hgid. rewrite Hgid.
      eexists game, _, _. split; [done|].
      split; [by rewrite found_lookup, decide_True, Hgame|].
      split; [by constructor|]. intros Hnil. rewrite Hnil in Hnew.
      by apply elem_of_nil in Hnew.
    + apply found_timers in Hnew as (game & _ & Hnew).
      destruct (quiet_handlers_schedule_nothing game socket gid "" r) as (_ & _ & Hq).
      rewrite Hq in Hnew. by apply elem_of_nil in Hnew.
    + by apply elem_of_nil in Hnew.
  - destruct (timers s !! n) as [t|] eqn:Ht; cbn [fst timers games]; [|by left].
    intros [Hold|Hnew]%elem_of_app; [left; by eapply list_elem_of_delete_inv|].
    right. unfold fire in *.
    destruct (games s !! timer_game t) as [game|] eqn:Hgame; cbn in Hnew;
      [|by apply elem_of_nil in Hnew].
    pose proof (fire_on_timers _ _ _ _ Hnew) as Hgid. rewrite Hgid.
    eexists game, _, _. split; [done|].
    split; [cbn; by rewrite lookup_insert_eq|].
    split; [by constructor|]. intros Hnil. rewrite Hnil in Hnew.
    by apply elem_of_nil in Hnew.
Qed.

Lemma tidy_created gameId socket playerName r :
  tidy (Game.mk gameId [creator socket playerName r] None false false None false).
Proof.
  unfold tidy, ids, turns. cbn [Game.players Game.gameStarted Game.currentBid].
  split; [apply NoDup_singleton|]. split.
  - intros [|i] [|j]; done.
  - intros _. split; [done|]. by intros [|i].
Qed.

(** In an orderly run every session is tidy and every pending timer belongs
    to a session that has started. *)
Lemma orderly_invariant s :
  orderly_reachable s →
  (∀ gameId game, games s !! gameId = Some game → tidy game) ∧ timers_started s.
Proof.
  induction 1 as [|s a Hreach [Hsessions Htimers] Horderly].
  - split.
    + intros gameId game Hgame. unfold init in Hgame. cbn [games] in Hgame.
      by rewrite lookup_empty in Hgame.
    + intros t g Ht. by apply elem_of_nil in Ht.
  - split.
    + intros gameId game' Hgame'.
      destruct (step_session s a gameId game' Hgame')
        as [(socket & playerName & r & _ & _ & ->)|(game & ts & Hgame & Hstep)].
      * apply tidy_created.
      * apply (step_tidy s a gameId game game' ts); try done.
        by apply (Hsessions gameId).
    + intros t' g' Ht' Hg'.
      destruct (step_timers s a t' Ht')
        as [Hold|(game & game' & ts & Hgame & Hgame' & Hstep & Hts)].
      * destruct (step_session s a (timer_game t') g' Hg')
          as [(socket & playerName & r & -> & Hgid & _)|(game & ts & Hgame & Hstep)].
        -- destruct Horderly as [_ Hfresh]. by destruct (Hfresh t' Hold).
        -- destruct (step_tidy s a (timer_game t') game g' ts Hgame Hstep Horderly
                       Htimers (Hsessions _ _ Hgame)) as (_ & Hkeeps & _).
           apply Hkeeps. by apply (Htimers t').
      * rewrite Hgame' in Hg'. injection Hg' as <-.
        destruct (step_tidy s a (timer_game t') game game' ts Hgame Hstep Horderly
                    Htimers (Hsessions _ _ Hgame)) as (_ & _ & Hscheduled).
        by apply Hscheduled.
Qed.

Lemma orderly_reachable_run s actions :
  orderly_reachable s → orderly_run s actions → orderly_reachable (run s actions).
Proof.
  revert s. induction actions as [|a actions IH]; intros s Hs Hrun; [done|].
  destruct Hrun as [Ha Hrest]. apply IH; [by constructor|done].
Qed.

(** C5, as amended. In every state of a run in which the random ids do not
    collide, [startGame] is sent only to sessions that have not started and
    [makeBid] only to sessions that have, at most one participant of a
    session holds the turn, whether the session has started, is over, or
    neither.  (That nobody holds the turn before the start or after the end
    is left out: the creator holds it in the Lobby and the last challenger
    keeps it when the game is over.) *)
Theorem one_turn_holder_in_orderly_runs s gameId game :
  orderly_reachable s →
  games s !! gameId = Some game →
  at_most_one_turn game.
Proof.
  intros Hreach Hgame.
  destruct (orderly_invariant s Hreach) as [Hsessions _].
  destruct (Hsessions gameId game Hgame) as (_ & Hsingle & _).
  by apply single_turns.
Qed.

Lemma one_turn_holder_in_orderly_runs_witness :
  orderly_reachable active
  ∧ games active !! "100000" = Some active_game
  ∧ at_most_one_turn active_game.
Proof.
  assert (orderly_reachable active) as Hreach.
  { unfold active. apply orderly_reachable_run; [constructor|].
    split; [|split; [|split; [|exact I]]].
    - split; [vm_compute; reflexivity|]. by intros t ?%elem_of_nil.
    - intros game Hgame. vm_compute in Hgame. injection Hgame as <-.
      vm_compute. intros Hin. inversion Hin as [|? ? ? Hnil]; inversion Hnil.
    - intros game Hgame. vm_compute in Hgame. by injection Hgame as <-. }
  assert (games active !! "100000" = Some active_game) as Hgame
    by (vm_compute; reflexivity).
  split; [exact Hreach|]. split; [exact Hgame|].
  exact (one_turn_holder_in_orderly_runs active "100000" active_game Hreach Hgame).
Defined.

(** C5, counterexample. Three reachable states: alone in the Lobby, Ann
    holds the turn although the session has not started; after the game is
    over, she still holds it; and after a second [startGame], sent when the
    turn was Bob's, Ann and Bob both hold it while the session is started
    and not over. *)
Lemma turn_held_outside_play_and_twice :
  (reachable alone
   ∧ Game.gameStarted <$> session alone "100000" = Some false
   ∧ turns <$> session alone "100000" = Some [true])
  ∧ (reachable played_out
     ∧ Game.gameOver <$> session played_out "100000" = Some true
     ∧ turns <$> session played_out "100000" = Some [true; false])
  ∧ (reachable (run active [ann_bids 1 1; start])
     ∧ Game.gameStarted <$> session (run active [ann_bids 1 1; start]) "100000"
       = Some true
     ∧ Game.gameOver <$> session (run active [ann_bids 1 1; start]) "100000"
       = Some false
     ∧ turns <$> session (run active [ann_bids 1 1; start]) "100000"
       = Some [true; true]).
Proof.
  assert (reachable active) as Hactive.
  { unfold active. apply reachable_run. constructor. }
  split; [|split].
  - split; [|split; vm_compute; reflexivity].
    unfold alone. apply reachable_run. constructor.
  - split; [|split; vm_compute; reflexivity].
    unfold played_out. by apply reachable_run.
  - split; [by apply reachable_run|]. repeat split; vm_compute; reflexivity.
Qed.

(** * Further properties of the engine *)

(** ** The cases of the handlers that resolve bluffs *)

Lemma callBluff_on_cases game gameId playerId r :
  let e := callBluff_on game gameId playerId r in
  (∃ message, e = fail game message)
  ∨ (∃ message, e = fail (Game.set_showDice true game) message)
  ∨ ∃ bid total li loser callerId newRound,
      Game.currentBid game = Some bid
      ∧ Game.players game !! li = Some loser
      ∧ e = settleBluff (Game.set_showDice true game) bid total li loser
              callerId newRound r.
Proof.
  unfold callBluff_on.
  destruct (Game.currentBid game) as [bid|] eqn:Hbid; [|left; by eexists].
  cbn [Game.players Game.set_showDice].
  destruct (list_find (λ p, Player.id p = playerId) _)
    as [[ci challenger]|] eqn:Hfind; [|left; by eexists].
  destruct (negb _); [left; by eexists|].
  destruct (list_find (λ p, Player.id p = Bid.playerId bid) _)
    as [[bi bidder]|] eqn:Hbidder; [|right; left; by eexists].
  right. right.
  apply list_find_Some in Hfind as (Hci & _). apply list_find_Some in Hbidder as (Hbi & _).
  destruct (_ >=? _); eexists bid, _, _, _, _, _; by repeat split.
Qed.

Lemma computerMove_on_cases game gameId r :
  let e := computerMove_on game gameId r in
  e = silent game
  ∨ e = silent (Game.set_showDice true game)
  ∨ (∃ ci computerPlayer count value,
       computerToMove game = Some (ci, computerPlayer)
       ∧ e = computerBids game computerPlayer count value)
  ∨ ∃ bid total li loser callerId newRound,
      Game.currentBid game = Some bid
      ∧ Game.players game !! li = Some loser
      ∧ e = settleBluff (Game.set_showDice true game) bid total li loser
              callerId newRound r.
Proof.
  unfold computerMove_on.
  destruct (Game.currentBid game) as [bid|] eqn:Hbid;
    (destruct (computerToMove game) as [[ci computerPlayer]|] eqn:Hmove;
       [|by left]).
  - destruct (computerCallsBluff _ _ _).
    + cbn [Game.players Game.set_showDice].
      destruct (list_find _ _) as [[bi bidder]|] eqn:Hbidder; [|right; by left].
      right. right. right.
      apply computerToMove_lookup in Hmove.
      apply list_find_Some in Hbidder as (Hbi & _).
      destruct (_ >=? _); eexists bid, _, _, _, _, _; by repeat split.
    + right. right. left. destruct (ensureHigher _ _) as [newCount newValue].
      by eexists _, _, _, _.
  - right. right. left.
    destruct (randomBelow 3 r) as [c r1]. destruct (randomBelow 6 r1) as [v r2].
    by eexists _, _, _, _.
Qed.

(** ** Hands *)

(** X1. [rollDice count] gives exactly [count] dice (none when [count] is
    below 1), and every die shows a face from 1 to 6. *)
Theorem rollDice_hand count r :
  length (rollDice count r).1 = Z.to_nat count
  ∧ ∀ d, d ∈ (rollDice count r).1 → 1 ≤ d ≤ 6.
Proof. apply rolled_hand. by exists r. Qed.

Lemma rollDice_hand_witness :
  3 ∈ (rollDice 2 (draws [2%nat; 5%nat])).1 ∧ 1 ≤ 3 ≤ 6.
Proof.
  assert (3 ∈ (rollDice 2 (draws [2%nat; 5%nat])).1) as Hin.
  { apply list_elem_of_lookup. by exists O. }
  split; [exact Hin|].
  exact (proj2 (rollDice_hand 2 (draws [2%nat; 5%nat])) 3 Hin).
Defined.

Lemma hand_fits_turn b p : hand_fits p → hand_fits (Player.set_isCurrentTurn b p).
Proof. done. Qed.

Lemma hand_fits_rolled p hand :
  rolled (Player.diceCount p) hand → hand_fits (Player.set_dice hand p).
Proof. intros Hrolled. by apply rolled_hand in Hrolled. Qed.

Lemma hand_fits_new playerId playerName b socket r :
  hand_fits (Player.mk playerId playerName (rollDice 5 r).1 5 b socket).
Proof. apply (rolled_hand 5). by exists r. Qed.

Lemma hand_fits_creator socket playerName r : hand_fits (creator socket playerName r).
Proof.
  unfold creator. destruct (randomId 7 r) as [playerId r1].
  pose proof (rolled_hand 5 _ (ex_intro _ r1 eq_refl)) as Hhand.
  destruct (rollDice 5 r1) as [hand r2]. exact Hhand.
Qed.

Lemma hand_fits_loseDie loser r : hand_fits (loseDie loser r).1.
Proof.
  pose proof (loseDie_lost loser r) as (_ & Hhand & _).
  unfold hand_fits.
  destruct (0 <? Player.diceCount (loseDie loser r).1) eqn:Hpos.
  - by apply rolled_hand.
  - rewrite Hhand. apply Z.ltb_ge in Hpos. split; [simpl; lia|].
    by intros d ?%elem_of_nil.
Qed.

Lemma hand_fits_rerollOthers loserId ps r :
  Forall hand_fits ps → Forall hand_fits (rerollOthers loserId ps r).1.
Proof.
  intros Hps. apply Forall_lookup. intros j p' Hp'.
  assert (is_Some (ps !! j)) as [p Hp].
  { apply lookup_lt_is_Some. rewrite <- (rerollOthers_length loserId ps r).
    by eapply lookup_lt_Some. }
  destruct (rerollOthers_lookup loserId ps r j p Hp) as (q & Hq & Hcase).
  rewrite Hp' in Hq. injection Hq as <-.
  destruct (_ && _).
  - destruct Hcase as (hand & Hrolled & ->). by apply hand_fits_rolled.
  - subst. by eapply Forall_lookup_1.
Qed.

Lemma hand_fits_settleBluff game bid total li loser callerId newRound r :
  Forall hand_fits (Game.players game) →
  Forall hand_fits
    (Game.players (eff_game (settleBluff game bid total li loser callerId newRound r))).
Proof.
  intros Hps.
  destruct (settleBluff_effect game bid total li loser callerId newRound r) as (-> & _).
  apply hand_fits_rerollOthers, Forall_insert; [done|apply hand_fits_loseDie].
Qed.

Lemma hand_fits_switchTurns playerId ps :
  Forall hand_fits ps → Forall hand_fits (switchTurns playerId ps).2.
Proof.
  intros Hps. unfold switchTurns. cbn [snd].
  apply Forall_lookup. intros j p. rewrite list_lookup_imap.
  destruct (ps !! j) as [q|] eqn:Hq; [|done].
  intros [= <-]. apply hand_fits_turn. by eapply Forall_lookup_1.
Qed.

Lemma hand_fits_computerBids game computerPlayer count value :
  Forall hand_fits (Game.players game) →
  Forall hand_fits (Game.players (eff_game (computerBids game computerPlayer count value))).
Proof.
  intros Hps. unfold computerBids. cbn [Game.players Game.set_currentBid].
  pose proof (hand_fits_switchTurns (Player.id computerPlayer) _ Hps) as Hnext.
  by destruct (switchTurns _ _).
Qed.

(** One step keeps the hands of a session fitting. *)
Lemma session_step_hands pending gameId game a game' ts :
  session_step pending gameId game a game' ts →
  Forall hand_fits (Game.players game) → Forall hand_fits (Game.players game').
Proof.
  intros Hstep Hps.
  destruct Hstep as [a|socket playerName r|socket r
    |socket playerId count value r|socket playerId r|socket r|socket r game' Hleft
    |n t r Ht Hgid].
  - done.
  - unfold joinGame_on. destruct (Game.gameStarted game); [done|].
    case_bool_decide; [done|].
    destruct (randomId 7 r) as [playerId r1].
    pose proof (hand_fits_new playerId playerName false socket r1) as Hnew.
    destruct (rollDice 5 r1) as [hand r2].
    cbn. apply Forall_app. split; [done|]. by apply Forall_singleton.
  - destruct (startGame_on_shape game) as [->| ->]; [done|].
    cbn. apply Forall_alter; [done|]. intros p _ Hp. by apply hand_fits_turn.
  - unfold makeBid_on.
    destruct (list_find _ _) as [[i p]|]; [|done].
    destruct (negb _); [done|]. destruct (invalidBid _ _ _); [done|].
    cbn [Game.players Game.set_currentBid].
    pose proof (hand_fits_switchTurns playerId _ Hps) as Hnext.
    by destruct (switchTurns _ _).
  - destruct (callBluff_on_cases game gameId playerId r)
      as [[message ->]|[[message ->]|(bid & total & li & loser & callerId & newRound
                                      & _ & _ & ->)]]; [done..|].
    by apply hand_fits_settleBluff.
  - unfold addComputer_on. case_bool_decide; [done|].
    destruct (randomId 7 r) as [computerId r1].
    pose proof (hand_fits_new computerId "Computer" false "computer" r1) as Hnew.
    destruct (rollDice 5 r1) as [hand r2].
    cbn. apply Forall_app. split; [done|]. by apply Forall_singleton.
  - destruct (disconnect_from_shape socket game game' Hleft) as [->|[i ->]]; [done|].
    cbn. by apply Forall_delete.
  - destruct t as [gid|gid challengerId challengerName|gid computerId];
      cbn [fire_on eff_game].
    + destruct (computerMove_on_cases game gid r)
        as [->|[->|[(ci & computerPlayer & count & value & _ & ->)
                    |(bid & total & li & loser & callerId & newRound & _ & _ & ->)]]];
        [done..| |].
      * by apply hand_fits_computerBids.
      * by apply hand_fits_settleBluff.
    + unfold newRound_on. cbn. apply Forall_fmap. by eapply Forall_impl.
    + unfold newRound_on. cbn. apply Forall_fmap. by eapply Forall_impl.
Qed.

Lemma reachable_hands_fit s gameId game :
  reachable s → games s !! gameId = Some game → Forall hand_fits (Game.players game).
Proof.
  intros Hreach. revert gameId game.
  induction Hreach as [|s a Hreach IH]; intros gameId game' Hgame'.
  - unfold init in Hgame'. cbn [games] in Hgame'. by rewrite lookup_empty in Hgame'.
  - destruct (step_session s a gameId game' Hgame')
      as [(socket & playerName & r & _ & _ & ->)|(game & ts & Hgame & Hstep)].
    + cbn [Game.players]. apply Forall_singleton, hand_fits_creator.
    + eapply session_step_hands; [exact Hstep|]. by apply (IH gameId).
Qed.

(** X2. In every reachable state the hand of every participant fits its
    dice count: it has exactly [diceCount] dice (none when the count is
    below 1) and every die shows a face from 1 to 6. *)
Theorem hands_fit_counts s gameId game p :
  reachable s → games s !! gameId = Some game → p ∈ Game.players game →
  hand_fits p.
Proof.
  intros Hreach Hgame Hp.
  by apply (Forall_forall hand_fits (Game.players game));
    [apply (reachable_hands_fit s gameId)|].
Qed.

Lemma hands_fit_counts_witness :
  reachable (run played_out [ann_calls])
  ∧ hand_fits (Player.mk "2000000" "Ann" [] (-1) true "sA").
Proof.
  assert (reachable (run played_out [ann_calls])) as Hreach.
  { apply reachable_run. unfold played_out. apply reachable_run.
    unfold active. apply reachable_run. constructor. }
  split; [exact Hreach|].
  refine (hands_fit_counts (run played_out [ann_calls]) "100000"
            (Game.mk "100000" [Player.mk "2000000" "Ann" [] (-1) true "sA"; bob]
               (Some (Bid.mk 2 1 "3000000")) true true (Some "3000000") true)
            _ Hreach _ _).
  - vm_compute; reflexivity.
  - apply list_elem_of_lookup. by exists O.
Defined.

(** ** Seats *)

Lemma settleBluff_length game bid total li loser callerId newRound r :
  length (Game.players (eff_game (settleBluff game bid total li loser callerId newRound r)))
  = length (Game.players game).
Proof.
  destruct (settleBluff_effect game bid total li loser callerId newRound r) as (-> & _).
  by rewrite rerollOthers_length, length_insert.
Qed.

Lemma computerBids_length game computerPlayer count value :
  length (Game.players (eff_game (computerBids game computerPlayer count value)))
  = length (Game.players game).
Proof.
  unfold computerBids. cbn [Game.players Game.set_currentBid].
  pose proof (switchTurns_length (Player.id computerPlayer) (Game.players game)) as Hlen.
  by destruct (switchTurns _ _).
Qed.

(** One step keeps a session at one or two participants. *)
Lemma session_step_seats pending gameId game a game' ts :
  session_step pending gameId game a game' ts →
  (1 ≤ length (Game.players game) ≤ 2)%nat →
  (1 ≤ length (Game.players game') ≤ 2)%nat.
Proof.
  intros Hstep Hseats.
  destruct Hstep as [a|socket playerName r|socket r
    |socket playerId count value r|socket playerId r|socket r|socket r game' Hleft
    |n t r Ht Hgid].
  - done.
  - unfold joinGame_on. destruct (Game.gameStarted game); [done|].
    case_bool_decide; [done|].
    destruct (randomId 7 r) as [playerId r1]. destruct (rollDice 5 r1) as [hand r2].
    cbn. rewrite length_app. simpl. lia.
  - destruct (startGame_on_shape game) as [->| ->]; [done|].
    cbn. by rewrite length_alter.
  - unfold makeBid_on.
    destruct (list_find _ _) as [[i p]|]; [|done].
    destruct (negb _); [done|]. destruct (invalidBid _ _ _); [done|].
    cbn [Game.players Game.set_currentBid].
    pose proof (switchTurns_length playerId (Game.players game)) as Hlen.
    destruct (switchTurns _ _). cbn in *. by rewrite Hlen.
  - destruct (callBluff_on_cases game gameId playerId r)
      as [[message ->]|[[message ->]|(bid & total & li & loser & callerId & newRound
                                      & _ & _ & ->)]]; [done..|].
    by rewrite settleBluff_length.
  - unfold addComputer_on. case_bool_decide; [done|].
    destruct (randomId 7 r) as [computerId r1]. destruct (rollDice 5 r1) as [hand r2].
    cbn. rewrite length_app. simpl. lia.
  - unfold disconnect_from in Hleft.
    destruct (list_find _ _) as [[i p]|] eqn:Hfind; [|by injection Hleft as <-].
    case_bool_decide as Hempty; [done|]. injection Hleft as <-.
    cbn in *. apply list_find_Some in Hfind as (Hi & _).
    rewrite length_delete in * by (by eexists). lia.
  - destruct t as [gid|gid challengerId challengerName|gid computerId];
      cbn [fire_on eff_game].
    + destruct (computerMove_on_cases game gid r)
        as [->|[->|[(ci & computerPlayer & count & value & _ & ->)
                    |(bid & total & li & loser & callerId & newRound & _ & _ & ->)]]];
        [done..| |].
      * by rewrite computerBids_length.
      * by rewrite settleBluff_length.
    + unfold newRound_on. cbn. by rewrite length_fmap.
    + unfold newRound_on. cbn. by rewrite length_fmap.
Qed.

(** X3. Every session of a reachable state has one or two participants:
    [joinGame] and [addComputer] refuse a third, and [disconnect] deletes
    the session that would be left empty. *)
Theorem seats_bounded s gameId game :
  reachable s → games s !! gameId = Some game →
  (1 ≤ length (Game.players game) ≤ 2)%nat.
Proof.
  intros Hreach. revert gameId game.
  induction Hreach as [|s a Hreach IH]; intros gameId game' Hgame'.
  - unfold init in Hgame'. cbn [games] in Hgame'. by rewrite lookup_empty in Hgame'.
  - destruct (step_session s a gameId game' Hgame')
      as [(socket & playerName & r & _ & _ & ->)|(game & ts & Hgame & Hstep)].
    + simpl. lia.
    + eapply session_step_seats; [exact Hstep|]. by apply (IH gameId).
Qed.

Lemma seats_bounded_witness :
  reachable active
  ∧ games active !! "100000" = Some active_game
  ∧ (1 ≤ length (Game.players active_game) ≤ 2)%nat.
Proof.
  assert (reachable active) as Hreach.
  { unfold active. apply reachable_run. constructor. }
  assert (games active !! "100000" = Some active_game) as Hgame
    by (vm_compute; reflexivity).
  split; [exact Hreach|]. split; [exact Hgame|].
  exact (seats_bounded active "100000" active_game Hreach Hgame).
Defined.

(** ** Phases *)

Lemma settleBluff_phases game bid total li loser callerId newRound r :
  let game' := eff_game (settleBluff game bid total li loser callerId newRound r) in
  Game.gameStarted game' = Game.gameStarted game
  ∧ (Game.gameOver game = true → Game.gameOver game' = true).
Proof.
  unfold settleBluff.
  destruct (loseDie loser r) as [loser' r1].
  destruct (rerollOthers _ _ r1) as [ps2 r2].
  destruct (existsb _ ps2); [destruct (find _ ps2)|]; done.
Qed.

Lemma computerBids_phases game computerPlayer count value :
  let game' := eff_game (computerBids game computerPlayer count value) in
  Game.gameStarted game' = Game.gameStarted game
  ∧ Game.gameOver game' = Game.gameOver game.
Proof. unfold computerBids. by destruct (switchTurns _ _). Qed.

(** One step never takes a session back to an earlier phase. *)
Lemma session_step_phases pending gameId game a game' ts :
  session_step pending gameId game a game' ts →
  (Game.gameStarted game = true → Game.gameStarted game' = true)
  ∧ (Game.gameOver game = true → Game.gameOver game' = true).
Proof.
  intros Hstep.
  destruct Hstep as [a|socket playerName r|socket r
    |socket playerId count value r|socket playerId r|socket r|socket r game' Hleft
    |n t r Ht Hgid].
  - done.
  - destruct (joinGame_on_shape game socket gameId playerName r)
      as [->|(q & -> & _)]; done.
  - destruct (startGame_on_shape game) as [->| ->]; done.
  - unfold makeBid_on.
    destruct (list_find _ _) as [[i p]|]; [|done].
    destruct (negb _); [done|]. destruct (invalidBid _ _ _); [done|].
    by destruct (switchTurns _ _).
  - destruct (callBluff_on_cases game gameId playerId r)
      as [[message ->]|[[message ->]|(bid & total & li & loser & callerId & newRound
                                      & _ & _ & ->)]]; [done..|].
    destruct (settleBluff_phases (Game.set_showDice true game) bid total li loser
                callerId newRound r) as [-> Hover]. done.
  - destruct (addComputer_on_shape game r) as [->|(q & -> & _)]; done.
  - destruct (disconnect_from_shape socket game game' Hleft) as [->|[i ->]]; done.
  - destruct t as [gid|gid challengerId challengerName|gid computerId];
      cbn [fire_on eff_game]; [|done..].
    destruct (computerMove_on_cases game gid r)
      as [->|[->|[(ci & computerPlayer & count & value & _ & ->)
                  |(bid & total & li & loser & callerId & newRound & _ & _ & ->)]]];
      [done..| |].
    + by destruct (computerBids_phases game computerPlayer count value) as [-> ->].
    + destruct (settleBluff_phases (Game.set_showDice true game) bid total li loser
                  callerId newRound r) as [-> Hover]. done.
Qed.

(** X4. No handler and no timer takes a session back: across any step that
    does not create a session under the same id, a session that has started
    stays started and a session that is over stays over. *)
Theorem phases_never_go_back s a gameId game game' :
  games s !! gameId = Some game →
  games (step s a).1 !! gameId = Some game' →
  (∀ socket playerName r,
     a = Receive (CreateGame socket playerName) r → (generateGameId r).1 ≠ gameId) →
  (Game.gameStarted game = true → Game.gameStarted game' = true)
  ∧ (Game.gameOver game = true → Game.gameOver game' = true).
Proof.
  intros Hgame Hgame' Hfresh.
  destruct (step_session s a gameId game' Hgame')
    as [(socket & playerName & r & -> & Hgid & _)|(game0 & ts & Hgame0 & Hstep)].
  - by destruct (Hfresh socket playerName r eq_refl).
  - rewrite Hgame in Hgame0. injection Hgame0 as <-.
    by eapply session_step_phases.
Qed.

Lemma phases_never_go_back_witness :
  games played_out !! "100000"
  = Some (Game.mk "100000" [Player.mk "2000000" "Ann" [] 0 true "sA"; bob]
            (Some (Bid.mk 2 1 "3000000")) true true (Some "3000000") true)
  ∧ Game.gameOver <$> games (step played_out ann_calls).1 !! "100000" = Some true.
Proof.
  assert (games played_out !! "100000"
          = Some (Game.mk "100000" [Player.mk "2000000" "Ann" [] 0 true "sA"; bob]
                    (Some (Bid.mk 2 1 "3000000")) true true (Some "3000000") true))
    as Hgame by (vm_compute; reflexivity).
  split; [exact Hgame|].
  destruct (games (step played_out ann_calls).1 !! "100000") as [game'|] eqn:Hgame';
    [|vm_compute in Hgame'; discriminate Hgame'].
  destruct (phases_never_go_back played_out ann_calls "100000" _ game' Hgame Hgame')
    as [_ Hover].
  - intros socket playerName r [=].
  - cbn. by rewrite Hover.
Defined.

(** ** Unknown sessions *)



(** ** Passing the turn *)

Lemma switchTurns_next_index playerId ps i p :
  list_find (λ q, Player.id q = playerId) ps = Some (i, p) →
  switchTurns playerId ps
  = (Z.of_nat ((i + 1) `mod` length ps),
     imap (λ j q, Player.set_isCurrentTurn
                    (bool_decide (j = (i + 1) `mod` length ps)%nat) q) ps).
Proof.
  intros Hfind. unfold switchTurns.
  rewrite (findIndex_found _ _ _ _ Hfind).
  apply list_find_Some in Hfind as (Hi & _). apply lookup_lt_Some in Hi.
  assert (Z.rem (Z.of_nat i + 1) (Z.of_nat (length ps))
          = Z.of_nat ((i + 1) `mod` length ps)) as ->.
  { rewrite Z.rem_mod_nonneg by lia. rewrite Nat2Z.inj_mod. f_equal. lia. }
  f_equal. apply imap_ext. intros j q _. f_equal.
  apply bool_decide_ext. lia.
Qed.

(** X6. When the bid of the participant at index [i] is taken, the turn
    goes to the participant at index [(i + 1) mod n] of the whole array (of
    [n] participants, those without dice included) and to nobody else; no
    other field of any participant changes; and the computer's move is
    scheduled exactly when that participant is named [Computer]. *)
Theorem makeBid_passes_turn games gameId game playerId i player count value :
  games !! gameId = Some game →
  list_find (λ p, Player.id p = playerId) (Game.players game) = Some (i, player) →
  Player.isCurrentTurn player = true →
  isHigher count value (Game.currentBid game) →
  let o := makeBid games gameId playerId count value in
  let next := ((i + 1) `mod` length (Game.players game))%nat in
  ∃ game' nextPlayer,
    out_games o !! gameId = Some game'
    ∧ Game.players game'
      = imap (λ j p, Player.set_isCurrentTurn (bool_decide (j = next)) p)
          (Game.players game)
    ∧ Game.players game !! next = Some nextPlayer
    ∧ out_events o = [EvBidMade (Bid.mk count value playerId) game' (Player.id nextPlayer)]
    ∧ out_timers o
      = (if bool_decide (Player.name nextPlayer = "Computer")
         then [TComputerMove gameId] else []).
Proof.
  intros Hgame Hfind Hturn Hhigher o next.
  apply invalidBid_isHigher in Hhigher.
  unfold o, makeBid, found, makeBid_on. rewrite Hgame, Hfind, Hturn, Hhigher.
  cbn [negb Game.players Game.set_currentBid].
  rewrite (switchTurns_next_index _ _ _ _ Hfind). fold next.
  assert (next < length (Game.players game))%nat as Hnext.
  { apply list_find_Some in Hfind as (Hi & _). apply lookup_lt_Some in Hi.
    apply Nat.mod_upper_bound. lia. }
  destruct (lookup_lt_is_Some_2 _ _ Hnext) as [nextPlayer HnextPlayer].
  exists (Game.set_players
            (imap (λ j p, Player.set_isCurrentTurn (bool_decide (j = next)) p)
               (Game.players game))
            (Game.set_currentBid (Some (Bid.mk count value playerId)) game)),
         nextPlayer.
  unfold commit, bidMade, wakeComputer.
  cbn [out_games out_events out_timers eff_game eff_events eff_timers
       Game.players Game.set_players].
  rewrite playerAt_nat, list_lookup_imap, HnextPlayer. cbn.
  split; [apply lookup_insert_eq|]. done.
Qed.

Lemma makeBid_passes_turn_witness :
  games active !! "100000" = Some active_game
  ∧ isHigher 1 1 (Game.currentBid active_game)
  ∧ ∃ game',
      out_games (makeBid (games active) "100000" "2000000" 1 1) !! "100000" = Some game'
      ∧ turns game' = [false; true].
Proof.
  assert (games active !! "100000" = Some active_game) as Hgame
    by (vm_compute; reflexivity).
  split; [exact Hgame|]. split; [exact I|].
  destruct (makeBid_passes_turn (games active) "100000" active_game "2000000" O ann 1 1
              Hgame eq_refl eq_refl I) as (game' & nextPlayer & Hgame' & Hps & _).
  exists game'. split; [exact Hgame'|]. unfold turns. rewrite Hps. reflexivity.
Defined.

(** ** The end of the game *)

Lemma find_list_find (ps : list Player) :
  find (λ p, 0 <? Player.diceCount p) ps
  = snd <$> list_find (λ p, 0 < Player.diceCount p) ps.
Proof.
  induction ps as [|p ps IH]; [done|].
  cbn [find list_find]. destruct (Z.ltb_spec 0 (Player.diceCount p)).
  - by rewrite decide_True.
  - rewrite decide_False by lia. rewrite IH.
    by destruct (list_find _ ps) as [[k w]|].
Qed.

Lemma existsb_Exists (ps : list Player) :
  existsb (λ p, Player.diceCount p =? 0) ps = true
  ↔ Exists (λ p, Player.diceCount p = 0) ps.
Proof.
  rewrite existsb_exists, Exists_exists. split.
  - intros (p & Hin & Hzero%Z.eqb_eq). exists p. by rewrite list_elem_of_In.
  - intros (p & Hin & Hzero). exists p. by rewrite <- list_elem_of_In, Z.eqb_eq.
Qed.

(** How settling a bluff ends: with a new round, with the end of the game,
    or with neither. *)
Lemma settleBluff_ending game bid total li loser callerId newRound r :
  let e := settleBluff game bid total li loser callerId newRound r in
  let game' := eff_game e in
  (¬ Exists (λ p, Player.diceCount p = 0) (Game.players game') →
     eff_timers e = [newRound]
     ∧ Game.gameOver game' = Game.gameOver game
     ∧ Game.winner game' = Game.winner game
     ∧ length (eff_events e) = 1%nat)
  ∧ (Exists (λ p, Player.diceCount p = 0) (Game.players game') →
     eff_timers e = []
     ∧ match list_find (λ p, 0 < Player.diceCount p) (Game.players game') with
       | Some (_, winner) =>
           Game.gameOver game' = true
           ∧ Game.winner game' = Some (Player.id winner)
           ∧ last (eff_events e) = Some (EvGameOver game' (Player.id winner))
       | None =>
           Game.gameOver game' = Game.gameOver game
           ∧ Game.winner game' = Game.winner game
           ∧ length (eff_events e) = 1%nat
       end).
Proof.
  unfold settleBluff.
  destruct (loseDie loser r) as [loser' r1].
  destruct (rerollOthers _ _ r1) as [ps2 r2].
  destruct (existsb _ ps2) eqn:Hout.
  - apply existsb_Exists in Hout. rewrite find_list_find.
    destruct (list_find _ ps2) as [[k w]|] eqn:Hfirst; cbn;
      (split; [done|]); intros _; rewrite Hfirst; done.
  - assert (¬ Exists (λ p, Player.diceCount p = 0) ps2) as Hnone.
    { intros Hex%existsb_Exists. congruence. }
    cbn. split; [done|]. by intros Hex.
Qed.

(** X7. A bluff call that passes its checks ends in one of three ways,
    decided on the dice counts after the loser gave up a die.  If nobody
    has exactly 0 dice, a new round is scheduled and the game is not ended.
    If somebody has 0 dice, no new round is scheduled; the game is then over
    with the first participant who still has dice as winner, announced by
    [gameOver]; and if nobody has dice, the game is not ended either. *)
Theorem callBluff_ending games gameId game bid playerId ci challenger bi bidder r :
  games !! gameId = Some game →
  Game.currentBid game = Some bid →
  list_find (λ p, Player.id p = playerId) (Game.players game) = Some (ci, challenger) →
  Player.isCurrentTurn challenger = true →
  list_find (λ p, Player.id p = Bid.playerId bid) (Game.players game) = Some (bi, bidder) →
  let o := callBluff games gameId playerId r in
  ∃ game',
    out_games o !! gameId = Some game'
    ∧ (¬ Exists (λ p, Player.diceCount p = 0) (Game.players game') →
         out_timers o = [TNewRound gameId playerId (Player.name challenger)]
         ∧ Game.gameOver game' = Game.gameOver game
         ∧ Game.winner game' = Game.winner game
         ∧ length (out_events o) = 1%nat)
    ∧ (Exists (λ p, Player.diceCount p = 0) (Game.players game') →
         out_timers o = []
         ∧ match list_find (λ p, 0 < Player.diceCount p) (Game.players game') with
           | Some (_, winner) =>
               Game.gameOver game' = true
               ∧ Game.winner game' = Some (Player.id winner)
               ∧ last (out_events o) = Some (EvGameOver game' (Player.id winner))
           | None =>
               Game.gameOver game' = Game.gameOver game
               ∧ Game.winner game' = Game.winner game
               ∧ length (out_events o) = 1%nat
           end).
Proof.
  intros Hgame Hbid Hfind Hturn Hbidder o.
  unfold o, callBluff, found. rewrite Hgame.
  rewrite (callBluff_on_settles game gameId bid playerId ci challenger bi bidder r)
    by done.
  eexists. unfold commit. cbn [out_games out_events out_timers].
  split; [apply lookup_insert_eq|].
  apply (settleBluff_ending (Game.set_showDice true game)).
Qed.

Lemma callBluff_ending_witness :
  let s := run active [ann_bids 1 1; bob_bids 2 1] in
  games s !! "100000"
  = Some (Game.mk "100000" [ann; bob] (Some (Bid.mk 2 1 "3000000")) true false None
            false)
  ∧ ∃ game',
      out_games (callBluff (games s) "100000" "2000000" zeros) !! "100000" = Some game'
      ∧ diceCounts game' = [4; 5]
      ∧ out_timers (callBluff (games s) "100000" "2000000" zeros)
        = [TNewRound "100000" "2000000" "Ann"].
Proof.
  intros s.
  assert (games s !! "100000"
          = Some (Game.mk "100000" [ann; bob] (Some (Bid.mk 2 1 "3000000")) true false
                    None false)) as Hgame by (vm_compute; reflexivity).
  split; [exact Hgame|].
  destruct (callBluff_ending (games s) "100000" _ (Bid.mk 2 1 "3000000") "2000000"
              O ann 1%nat bob zeros Hgame eq_refl eq_refl eq_refl eq_refl)
    as (game' & Hgame' & Hround & _).
  assert (diceCounts game' = [4; 5]) as Hcounts.
  { assert (diceCounts
              <$> out_games (callBluff (games s) "100000" "2000000" zeros) !! "100000"
            = Some [4; 5]) as H by (vm_compute; reflexivity).
    rewrite Hgame' in H. by injection H. }
  exists game'. split; [exact Hgame'|]. split; [exact Hcounts|].
  apply Hround. unfold diceCounts in Hcounts.
  intros (p & Hp & Hzero)%Exists_exists.
  apply (list_elem_of_fmap_2 Player.diceCount) in Hp. rewrite Hcounts, Hzero in Hp.
  apply elem_of_cons in Hp as [Hp|Hp]; [discriminate Hp|].
  apply elem_of_cons in Hp as [Hp|Hp]; [discriminate Hp|].
  by apply elem_of_nil in Hp.
Defined.

(** ** The bids of the computer *)

Lemma for_range_invariant {S : Type} (Inv : Z → S → Prop) n i (body : Z → S → S) s :
  Inv i s →
  (∀ j t, i ≤ j < i + Z.of_nat n → Inv j t → Inv (j + 1) (body j t)) →
  Inv (i + Z.of_nat n) (for_range n i body s).
Proof.
  revert i s. induction n as [|n IH]; intros i s Hs Hbody.
  - by rewrite Z.add_0_r.
  - cbn [for_range].
    replace (i + Z.of_nat (Datatypes.S n)) with ((i + 1) + Z.of_nat n) by lia.
    apply IH.
    + apply Hbody; [lia|done].
    + intros j t Hj. apply Hbody. lia.
Qed.

Lemma countValue_cons v d hand :
  countValue v (d :: hand) = (if decide (d = v) then 1 else 0) + countValue v hand.
Proof.
  unfold countValue. rewrite filter_cons.
  destruct (decide (d = v)); simpl length; lia.
Qed.

Lemma countValue_nonneg v hand : 0 ≤ countValue v hand.
Proof. unfold countValue. lia. Qed.

Lemma valueCounts_from (init : list Z) hand (k : nat) :
  (1 ≤ k < length init)%nat →
  fold_left (λ counts value, alter Z.succ (Z.to_nat value) counts) hand init !!! k
  = init !!! k + countValue (Z.of_nat k) hand.
Proof.
  revert init. induction hand as [|d hand IH]; intros init Hk.
  - cbn. unfold countValue. simpl. lia.
  - cbn [fold_left]. rewrite IH by (by rewrite length_alter).
    rewrite countValue_cons, list_lookup_total_alter.
    destruct (decide (Z.to_nat d = k ∧ (Z.to_nat d < length init)%nat))
      as [[Heq _]|Hne].
    + rewrite decide_True by lia. subst k. lia.
    + rewrite decide_False by lia. lia.
Qed.

(** [valueCounts] counts the faces 1 to 6 of the hand, whatever else the
    hand holds. *)
Lemma valueCounts_face hand w :
  1 ≤ w ≤ 6 → valueCounts hand !!! Z.to_nat w = countValue w hand.
Proof.
  intros Hw. unfold valueCounts. rewrite valueCounts_from by (simpl; lia).
  rewrite Z2Nat.id by lia.
  assert (Z.to_nat w = 1 ∨ Z.to_nat w = 2 ∨ Z.to_nat w = 3 ∨ Z.to_nat w = 4
          ∨ Z.to_nat w = 5 ∨ Z.to_nat w = 6)%nat as Hcases by lia.
  destruct Hcases as [->|[->|[->|[->|[->| ->]]]]]; reflexivity.
Qed.

(** The scan of [mostFrequent] over counts that are not negative. *)
Lemma mostFrequent_scan (counts : list Z) :
  (∀ w, 1 ≤ w ≤ 6 → 0 ≤ counts !!! Z.to_nat w) →
  let best := mostFrequent counts in
  1 ≤ best.2 ≤ 6
  ∧ best.1 = counts !!! Z.to_nat best.2
  ∧ (∀ w, 1 ≤ w ≤ 6 → counts !!! Z.to_nat w ≤ best.1)
  ∧ (∀ w, 1 ≤ w < best.2 → counts !!! Z.to_nat w < best.1).
Proof.
  intros Hnonneg. unfold mostFrequent.
  pose (Inv := λ (j : Z) (best : Z * Z),
          1 ≤ best.2 ≤ 6
          ∧ (best.2 < j ∨ best.2 = 1)
          ∧ (best.1 = counts !!! Z.to_nat best.2 ∨ (best.1 = 0 ∧ best.2 = 1))
          ∧ (∀ w, 1 ≤ w < j → counts !!! Z.to_nat w ≤ best.1)
          ∧ (∀ w, 1 ≤ w < best.2 → counts !!! Z.to_nat w < best.1)).
  assert (Inv (1 + Z.of_nat 6)
            (for_range 6 1
               (λ i best,
                  if counts !!! Z.to_nat i >? best.1 then (counts !!! Z.to_nat i, i)
                  else best)
               (0, 1))) as (Hrange & _ & Hcount & Hmax & Hfirst).
  { apply for_range_invariant.
    - unfold Inv. cbn. repeat split; lia.
    - intros j [m v] Hj (Hv & Hseen & Hm & Hmax & Hfirst). cbn in *.
      rewrite Z.gtb_ltb. destruct (Z.ltb_spec m (counts !!! Z.to_nat j)) as [Hlt|Hge];
        unfold Inv; cbn.
      + repeat split; try lia.
        * intros w Hw. destruct (decide (w = j)) as [->|]; [lia|].
          assert (counts !!! Z.to_nat w ≤ m) by (apply Hmax; lia). lia.
        * intros w Hw. assert (counts !!! Z.to_nat w ≤ m) by (apply Hmax; lia). lia.
      + split; [done|]. split; [lia|]. split; [done|]. split; [|done].
        intros w Hw. destruct (decide (w = j)) as [->|]; [lia|]. apply Hmax. lia. }
  destruct (for_range 6 1 _ (0, 1)) as [m v]. cbn in *.
  split; [done|]. split; [|split; [|done]].
  - destruct Hcount as [Hcount|[-> ->]]; [done|].
    pose proof (Hnonneg 1 ltac:(lia)). pose proof (Hmax 1 ltac:(lia)). lia.
  - intros w Hw. apply Hmax. lia.
Qed.

(** X8. Of the faces 1 to 6, [mostFrequent] finds the one the hand holds
    most often, the lowest such face on a tie, together with how often the
    hand holds it; a hand without any of these faces gives face 1, zero
    times. *)
Theorem mostFrequent_correct hand :
  let best := mostFrequent (valueCounts hand) in
  1 ≤ best.2 ≤ 6
  ∧ best.1 = countValue best.2 hand
  ∧ (∀ w, 1 ≤ w ≤ 6 → countValue w hand ≤ best.1)
  ∧ (∀ w, 1 ≤ w < best.2 → countValue w hand < best.1).
Proof.
  destruct (mostFrequent_scan (valueCounts hand)) as (Hrange & Hcount & Hmax & Hfirst).
  { intros w Hw. rewrite valueCounts_face by done. apply countValue_nonneg. }
  intros best. fold best in Hrange, Hcount, Hmax, Hfirst.
  split; [done|]. split; [by rewrite <- valueCounts_face|]. split.
  - intros w Hw. rewrite <- valueCounts_face by done. by apply Hmax.
  - intros w Hw. rewrite <- valueCounts_face by lia. by apply Hfirst.
Qed.

Lemma mostFrequent_correct_witness :
  mostFrequent (valueCounts [4; 2; 4; 2; 6]) = (2, 2)
  ∧ 1 ≤ 4 ≤ 6
  ∧ countValue 4 [4; 2; 4; 2; 6] ≤ 2.
Proof.
  split; [reflexivity|]. split; [lia|].
  exact (proj1 (proj2 (proj2 (mostFrequent_correct [4; 2; 4; 2; 6]))) 4
           ltac:(lia)).
Defined.


Lemma computerToMove_turn game ci computerPlayer :
  computerToMove game = Some (ci, computerPlayer) →
  list_find (λ p, Player.name p = "Computer") (Game.players game)
  = Some (ci, computerPlayer)
  ∧ Player.isCurrentTurn computerPlayer = true.
Proof.
  unfold computerToMove.
  destruct (list_find _ _) as [[i p]|]; [|done].
  destruct (Player.isCurrentTurn p) eqn:Hturn; [|done].
  by intros [= <- <-].
Qed.




(** X11. The computer moves only on its turn: when no participant is named
    [Computer], or the first who is does not hold the turn, [computerMove]
    changes nothing, sends nothing and schedules nothing. *)
Theorem computer_waits_for_its_turn game gameId r :
  (∀ i p, list_find (λ p, Player.name p = "Computer") (Game.players game) = Some (i, p) →
          Player.isCurrentTurn p = false) →
  computerMove_on game gameId r = silent game.
Proof.
  intros Hturn.
  assert (computerToMove game = None) as Hmove.
  { unfold computerToMove. destruct (list_find _ _) as [[i p]|] eqn:Hfind; [|done].
    by rewrite (Hturn i p eq_refl). }
  unfold computerMove_on. rewrite Hmove. by destruct (Game.currentBid game).
Qed.

Lemma computer_waits_for_its_turn_witness :
  computerMove_on active_game "100000" zeros = silent active_game.
Proof.
  apply computer_waits_for_its_turn. intros i p. vm_compute. discriminate.
Defined.

Lemma settleBluff_newRound game bid total li loser callerId t1 t2 r :
  let e1 := settleBluff game bid total li loser callerId t1 r in
  let e2 := settleBluff game bid total li loser callerId t2 r in
  eff_game e2 = eff_game e1
  ∧ eff_events e2 = eff_events e1
  ∧ eff_timers e2 = (λ _, t2) <$> eff_timers e1.
Proof.
  unfold settleBluff.
  destruct (loseDie loser r) as [loser' r1].
  destruct (rerollOthers _ _ r1) as [ps2 r2].
  destruct (existsb _ ps2); [destruct (find _ ps2)|]; done.
Qed.

(** X12. The bluff call of the computer is the bluff call of a player: when
    the computer, found under its own id, decides to call, the session it
    leaves is the one [callBluff] with its id would leave, a new round is
    scheduled by the one exactly when it is by the other, and when the
    bidder is found the same events go out. *)
Theorem computer_bluff_as_callBluff game gameId bid ci computerPlayer r :
  Game.currentBid game = Some bid →
  computerToMove game = Some (ci, computerPlayer) →
  list_find (λ p, Player.id p = Player.id computerPlayer) (Game.players game)
  = Some (ci, computerPlayer) →
  computerCallsBluff (Player.dice computerPlayer) bid
    (opponentDiceCount (Game.players game)) = true →
  let mine := computerMove_on game gameId r in
  let theirs := callBluff_on game gameId (Player.id computerPlayer) r in
  eff_game mine = eff_game theirs
  ∧ eff_timers mine
    = (λ _, TComputerNewRound gameId (Player.id computerPlayer)) <$> eff_timers theirs
  ∧ (is_Some (list_find (λ p, Player.id p = Bid.playerId bid) (Game.players game)) →
     eff_events mine = eff_events theirs).
Proof.
  intros Hbid Hmove Hme Hcall.
  destruct (computerToMove_turn _ _ _ Hmove) as [_ Hturn].
  unfold computerMove_on, callBluff_on. rewrite Hbid, Hmove, Hcall, Hme, Hturn.
  cbn [negb Game.players Game.set_showDice]. rewrite Hme.
  destruct (list_find (λ p, Player.id p = Bid.playerId bid) _) as [[bi bidder]|].
  - destruct (_ >=? _).
    + destruct (settleBluff_newRound (Game.set_showDice true game) bid
                  (totalDiceWithValue (Bid.value bid) (Game.players game))
                  ci computerPlayer (Player.id computerPlayer)
                  (TNewRound gameId (Player.id computerPlayer) (Player.name computerPlayer))
                  (TComputerNewRound gameId (Player.id computerPlayer)) r)
        as (-> & -> & ->). done.
    + destruct (settleBluff_newRound (Game.set_showDice true game) bid
                  (totalDiceWithValue (Bid.value bid) (Game.players game))
                  bi bidder (Player.id computerPlayer)
                  (TNewRound gameId (Player.id computerPlayer) (Player.name computerPlayer))
                  (TComputerNewRound gameId (Player.id computerPlayer)) r)
        as (-> & -> & ->). done.
  - cbn. split; [done|]. split; [done|]. by intros [? ?].
Qed.

Lemma computer_bluff_as_callBluff_witness :
  let computer := Player.mk "4000000" "Computer" [1; 1; 1; 1; 1] 5 true "computer" in
  let game :=
    Game.mk "100000"
      [Player.mk "2000000" "Ann" [1; 1; 1; 1; 1] 5 false "sA"; computer]
      (Some (Bid.mk 9 6 "2000000")) true false None false in
  computerCallsBluff (Player.dice computer) (Bid.mk 9 6 "2000000")
    (opponentDiceCount (Game.players game)) = true
  ∧ eff_game (computerMove_on game "100000" zeros)
    = eff_game (callBluff_on game "100000" "4000000" zeros).
Proof.
  intros computer game. split; [reflexivity|].
  exact (proj1 (computer_bluff_as_callBluff game "100000" (Bid.mk 9 6 "2000000") 1%nat
                  computer zeros eq_refl eq_refl eq_refl eq_refl)).
Defined.

(** ** Taking and leaving seats *)

(** X13. [joinGame] is refused, with an error and the registry unchanged,
    exactly when the session has started or already has two participants.
    Otherwise the new participant is appended after the others, who do not
    change: it carries the name and socket of the sender, has five dice in a
    fitting hand, and does not hold the turn; nothing else of the session
    changes. *)
Theorem joinGame_contract games socket gameId playerName r game :
  games !! gameId = Some game →
  let o := joinGame games socket gameId playerName r in
  (Game.gameStarted game = true ∨ (2 ≤ length (Game.players game))%nat →
     rejected (out_events o) ∧ out_games o = games)
  ∧ (Game.gameStarted game = false → (length (Game.players game) < 2)%nat →
     ∃ q, out_games o
          = <[gameId := Game.set_players (Game.players game ++ [q]) game]> games
          ∧ Player.name q = playerName
          ∧ Player.socketId q = socket
          ∧ Player.diceCount q = 5
          ∧ Player.isCurrentTurn q = false
          ∧ hand_fits q
          ∧ ¬ rejected (out_events o)).
Proof.
  intros Hgame o. unfold o, joinGame, found, joinGame_on. rewrite Hgame.
  destruct (Game.gameStarted game) eqn:Hstarted.
  { rewrite (commit_fail _ _ _ _ Hgame). split; [|done].
    intros _. split; [apply rejected_reject|done]. }
  case_bool_decide as Hfull.
  { rewrite (commit_fail _ _ _ _ Hgame). split; [|lia].
    intros _. split; [apply rejected_reject|done]. }
  split; [intros [|]; [done|lia]|]. intros _ _.
  destruct (randomId 7 r) as [playerId r1].
  pose proof (hand_fits_new playerId playerName false socket r1) as Hfits.
  destruct (rollDice 5 r1) as [hand r2].
  eexists. split; [reflexivity|]. cbn.
  split; [done|]. split; [done|]. split; [done|]. split; [done|].
  split; [exact Hfits|]. intros [message Hmessage]. discriminate Hmessage.
Qed.

Lemma joinGame_contract_witness :
  games alone !! "100000"
  = Some (Game.mk "100000" [ann] None false false None false)
  ∧ ¬ rejected (out_events (joinGame (games alone) "sB" "100000" "Bob" zeros)).
Proof.
  assert (games alone !! "100000"
          = Some (Game.mk "100000" [ann] None false false None false)) as Hgame
    by (vm_compute; reflexivity).
  split; [exact Hgame|].
  destruct (proj2 (joinGame_contract (games alone) "sB" "100000" "Bob" zeros _ Hgame)
              eq_refl) as (q & _ & _ & _ & _ & _ & _ & Haccepted).
  - simpl. lia.
  - exact Haccepted.
Defined.

(** X14. [addComputer] looks at the seats only, not at the phase: it is
    refused, with an error and the registry unchanged, exactly when the
    session has two participants, and otherwise (be the session started or
    over) it appends a participant named [Computer] with five dice in a
    fitting hand and without the turn, and changes nothing else. *)
Theorem addComputer_contract games gameId r game :
  games !! gameId = Some game →
  let o := addComputer games gameId r in
  ((2 ≤ length (Game.players game))%nat →
     rejected (out_events o) ∧ out_games o = games)
  ∧ ((length (Game.players game) < 2)%nat →
     ∃ q, out_games o
          = <[gameId := Game.set_players (Game.players game ++ [q]) game]> games
          ∧ Player.name q = "Computer"
          ∧ Player.socketId q = "computer"
          ∧ Player.diceCount q = 5
          ∧ Player.isCurrentTurn q = false
          ∧ hand_fits q
          ∧ ¬ rejected (out_events o)).
Proof.
  intros Hgame o. unfold o, addComputer, found, addComputer_on. rewrite Hgame.
  case_bool_decide as Hfull.
  { rewrite (commit_fail _ _ _ _ Hgame). split; [|lia].
    intros _. split; [apply rejected_reject|done]. }
  split; [lia|]. intros _.
  destruct (randomId 7 r) as [computerId r1].
  pose proof (hand_fits_new computerId "Computer" false "computer" r1) as Hfits.
  destruct (rollDice 5 r1) as [hand r2].
  eexists. split; [reflexivity|]. cbn.
  split; [done|]. split; [done|]. split; [done|]. split; [done|].
  split; [exact Hfits|]. intros [message Hmessage]. discriminate Hmessage.
Qed.

Lemma addComputer_contract_witness :
  let s := run active [ann_leaves] in
  games s !! "100000" = Some (Game.mk "100000" [bob] None true false None false)
  ∧ ¬ rejected (out_events (addComputer (games s) "100000" zeros)).
Proof.
  intros s.
  assert (games s !! "100000"
          = Some (Game.mk "100000" [bob] None true false None false)) as Hgame
    by (vm_compute; reflexivity).
  split; [exact Hgame|].
  destruct (proj2 (addComputer_contract (games s) "100000" zeros _ Hgame))
    as (q & _ & _ & _ & _ & _ & _ & Haccepted).
  - simpl. lia.
  - exact Haccepted.
Defined.

(** X15. [disconnect] works session by session.  A session in which the
    socket has no participant is untouched and gets no event.  From a
    session in which it has one, the first such participant is spliced out
    and [playerLeft] names him; if he was the only participant the session
    is deleted from the registry.  No timer is scheduled. *)
Theorem disconnect_registry games socket gameId game :
  games !! gameId = Some game →
  let o := disconnect games socket in
  (list_find (λ p, Player.socketId p = socket) (Game.players game) = None →
     out_games o !! gameId = Some game
     ∧ ∀ playerId, EvPlayerLeft gameId playerId ∉ out_events o)
  ∧ (∀ i p,
       list_find (λ p, Player.socketId p = socket) (Game.players game) = Some (i, p) →
       EvPlayerLeft gameId (Player.id p) ∈ out_events o
       ∧ out_games o !! gameId
         = if bool_decide (length (Game.players game) = 1)%nat then None
           else Some (Game.set_players (delete i (Game.players game)) game))
  ∧ out_timers o = [].
Proof.
  intros Hgame o. split; [|split; [|done]].
  - intros Hnone. split.
    + unfold o. rewrite disconnect_lookup, Hgame. cbn.
      unfold disconnect_from. by rewrite Hnone.
    + intros playerId Hin. unfold o, disconnect in Hin. cbn in Hin.
      apply list_elem_of_omap in Hin as ([gid g] & Hentry & Hleft).
      apply elem_of_map_to_list in Hentry. unfold playerLeft in Hleft. cbn in Hleft.
      destruct (list_find _ (Game.players g)) as [[j q]|] eqn:Hfind; [|done].
      injection Hleft as -> _. rewrite Hgame in Hentry. injection Hentry as <-.
      congruence.
  - intros i p Hfind. split.
    + unfold o, disconnect. cbn. apply list_elem_of_omap.
      exists (gameId, game). split; [by apply elem_of_map_to_list|].
      unfold playerLeft. cbn. by rewrite Hfind.
    + unfold o. rewrite disconnect_lookup, Hgame. cbn.
      unfold disconnect_from. rewrite Hfind. cbn.
      apply list_find_Some in Hfind as (Hi & _).
      rewrite length_delete by (by eexists).
      apply lookup_lt_Some in Hi.
      repeat case_bool_decide; try done; lia.
Qed.

Lemma disconnect_registry_witness :
  games alone !! "100000" = Some (Game.mk "100000" [ann] None false false None false)
  ∧ out_games (disconnect (games alone) "sA") !! "100000" = None.
Proof.
  assert (games alone !! "100000"
          = Some (Game.mk "100000" [ann] None false false None false)) as Hgame
    by (vm_compute; reflexivity).
  split; [exact Hgame|].
  exact (proj2 (proj1 (proj2 (disconnect_registry (games alone) "sA" "100000" _ Hgame))
                  O ann eq_refl)).
Defined.

(** X16. Creating a session and leaving it again restores the registry:
    when the new id is free and the socket sits in no session,
    [createGame] followed by the [disconnect] of the same socket gives back
    the registry as it was. *)
Theorem create_then_disconnect games socket playerName r :
  games !! (generateGameId r).1 = None →
  (∀ gameId game p,
     games !! gameId = Some game → p ∈ Game.players game → Player.socketId p ≠ socket) →
  out_games (disconnect (out_games (createGame games socket playerName r)) socket)
  = games.
Proof.
  intros Hfree Habsent. unfold createGame.
  destruct (generateGameId r) as [gid r1]. cbn [fst] in Hfree. cbn [out_games].
  apply map_eq. intros k. rewrite disconnect_lookup, lookup_insert.
  case_decide as Hk.
  - subst k. rewrite Hfree. cbn. unfold disconnect_from, creator.
    destruct (randomId 7 r1) as [playerId r2]. destruct (rollDice 5 r2) as [hand r3].
    cbn. by rewrite decide_True.
  - destruct (games !! k) as [game|] eqn:Hgame; [|done]. cbn.
    unfold disconnect_from.
    destruct (list_find _ _) as [[i p]|] eqn:Hfind; [|done].
    apply list_find_Some in Hfind as (Hi & Hsocket & _).
    destruct (Habsent k game p Hgame); [by eapply list_elem_of_lookup_2|done].
Qed.

Lemma create_then_disconnect_witness :
  games active !! (generateGameId (draws [7%nat])).1 = None
  ∧ out_games (disconnect (out_games (createGame (games active) "sC" "Cy"
                                        (draws [7%nat]))) "sC")
    = games active.
Proof.
  assert (games active !! (generateGameId (draws [7%nat])).1 = None) as Hfree
    by (vm_compute; reflexivity).
  split; [exact Hfree|].
  apply (create_then_disconnect (games active) "sC" "Cy" (draws [7%nat]) Hfree).
  intros gameId game p Hgame Hp.
  assert (Forall (λ p, Player.socketId p ≠ "sC") (Game.players active_game)) as Hall.
  { repeat constructor; discriminate. }
  destruct (decide (gameId = "100000")) as [->|Hne].
  - assert (games active !! "100000" = Some active_game) as Hactive
      by (vm_compute; reflexivity).
    rewrite Hactive in Hgame. injection Hgame as <-.
    exact (proj1 (Forall_forall _ _) Hall p Hp).
  - assert (games active = {["100000" := active_game]}) as Hreg
      by (vm_compute; reflexivity).
    rewrite Hreg, lookup_singleton_ne in Hgame by done. discriminate Hgame.
Defined.

(** ** What the clients are told *)

Lemma in_sync_fail game message : in_sync (fail game message).
Proof. by intros g. Qed.

Lemma in_sync_settleBluff game bid total li loser callerId newRound r :
  in_sync (settleBluff game bid total li loser callerId newRound r).
Proof.
  unfold settleBluff.
  destruct (loseDie loser r) as [loser' r1].
  destruct (rerollOthers _ _ r1) as [ps2 r2].
  destruct (existsb _ ps2); [destruct (find _ ps2)|]; intros g [= <-]; done.
Qed.

Lemma in_sync_bidMade newBid nextPlayerIndex game timers :
  in_sync (mkEffect game (bidMade newBid nextPlayerIndex game) timers).
Proof.
  unfold in_sync, bidMade. cbn.
  destruct (playerAt _ _); [|done]. by intros g [= <-].
Qed.

Lemma in_sync_computerBids game computerPlayer count value :
  in_sync (computerBids game computerPlayer count value).
Proof.
  unfold computerBids. destruct (switchTurns _ _) as [next ps].
  apply in_sync_bidMade.
Qed.

(** Every handler that works on one session tells the clients, in the last
    event that carries a session, the session as it leaves it. *)
Lemma handlers_in_sync game socket gameId playerName playerId count value t r :
  in_sync (joinGame_on game socket gameId playerName r)
  ∧ in_sync (startGame_on game)
  ∧ in_sync (makeBid_on game gameId playerId count value)
  ∧ in_sync (callBluff_on game gameId playerId r)
  ∧ in_sync (addComputer_on game r)
  ∧ in_sync (fire_on t game r).
Proof.
  repeat split.
  - unfold joinGame_on. destruct (Game.gameStarted game); [done|].
    case_bool_decide; [done|].
    destruct (randomId 7 r) as [pid r1]. destruct (rollDice 5 r1) as [hand r2].
    by intros g [= <-].
  - unfold startGame_on. case_bool_decide; [done|]. by intros g [= <-].
  - unfold makeBid_on. destruct (list_find _ _) as [[i p]|]; [|done].
    destruct (negb _); [done|]. destruct (invalidBid _ _ _); [done|].
    destruct (switchTurns _ _) as [next ps]. apply in_sync_bidMade.
  - destruct (callBluff_on_cases game gameId playerId r)
      as [[message ->]|[[message ->]|(bid & total & li & loser & callerId & newRound
                                      & _ & _ & ->)]]; [done..|].
    apply in_sync_settleBluff.
  - unfold addComputer_on. case_bool_decide; [done|].
    destruct (randomId 7 r) as [cid r1]. destruct (rollDice 5 r1) as [hand r2].
    by intros g [= <-].
  - destruct t as [gid|gid challengerId challengerName|gid computerId];
      cbn [fire_on]; [|by intros g [= <-]..].
    destruct (computerMove_on_cases game gid r)
      as [->|[->|[(ci & computerPlayer & c & v & _ & ->)
                  |(bid & total & li & loser & callerId & newRound & _ & _ & ->)]]];
      [done..| |].
    + apply in_sync_computerBids.
    + apply in_sync_settleBluff.
Qed.

Lemma found_in_sync games gameId stray body g :
  (∀ game, in_sync (body game)) →
  last_carried (out_events (found games gameId stray body)) = Some g →
  out_games (found games gameId stray body) !! gameId = Some g.
Proof.
  intros Hsync. unfold found. destruct (games !! gameId) as [game|].
  - cbn. intros ->%Hsync. apply lookup_insert_eq.
  - case_bool_decide; [by destruct stray|done].
Qed.

(** X17. The clients are told what the server stores: whenever a command
    emits events that carry the session, the last of them carries the
    session exactly as the registry holds it, under the id the command names
    (or generates), after the handler.  (An [error] and [playerLeft] carry
    no session.) *)
Theorem clients_see_the_stored_session games c r g :
  last_carried (out_events (handle games c r)) = Some g →
  ∃ gameId, target c r = Some gameId
            ∧ out_games (handle games c r) !! gameId = Some g.
Proof.
  destruct c as [socket playerName|socket gid playerName|socket gid
                |socket gid playerId count value|socket gid playerId
                |socket gid|socket]; cbn [handle target].
  - unfold createGame. destruct (generateGameId r) as [gid r1]. cbn.
    intros [= <-]. exists gid. split; [done|]. apply lookup_insert_eq.
  - intros Hlast. exists gid. split; [done|].
    apply found_in_sync; [|done]. intros game.
    apply (handlers_in_sync game socket gid playerName "" 0 0 (TComputerMove "") r).
  - intros Hlast. exists gid. split; [done|].
    apply found_in_sync; [|done]. intros game.
    apply (handlers_in_sync game "" gid "" "" 0 0 (TComputerMove "") r).
  - intros Hlast. exists gid. split; [done|].
    apply found_in_sync; [|done]. intros game.
    apply (handlers_in_sync game "" gid "" playerId count value (TComputerMove "") r).
  - intros Hlast. exists gid. split; [done|].
    apply found_in_sync; [|done]. intros game.
    apply (handlers_in_sync game "" gid "" playerId 0 0 (TComputerMove "") r).
  - intros Hlast. exists gid. split; [done|].
    apply found_in_sync; [|done]. intros game.
    apply (handlers_in_sync game "" gid "" "" 0 0 (TComputerMove "") r).
  - unfold disconnect, last_carried. cbn.
    assert (omap carried (omap (playerLeft socket) (map_to_list games)) = []) as ->;
      [|done].
    induction (map_to_list games) as [|[k game] l IH]; [done|]. cbn.
    unfold playerLeft at 1. cbn. by destruct (list_find _ _) as [[i p]|].
Qed.

Lemma clients_see_the_stored_session_witness :
  ∃ g, last_carried (out_events (handle (games active) (CallBluff "sA" "100000" "2000000")
                                   zeros)) = None
       ∧ last_carried (out_events (handle (games active)
                                     (MakeBid "sA" "100000" "2000000" 1 1) zeros))
         = Some g
       ∧ out_games (handle (games active) (MakeBid "sA" "100000" "2000000" 1 1) zeros)
         !! "100000" = Some g.
Proof.
  destruct (last_carried (out_events (handle (games active)
                                        (MakeBid "sA" "100000" "2000000" 1 1) zeros)))
    as [g|] eqn:Hlast; [|vm_compute in Hlast; discriminate Hlast].
  exists g. split; [vm_compute; reflexivity|]. split; [reflexivity|].
  destruct (clients_see_the_stored_session (games active)
              (MakeBid "sA" "100000" "2000000" 1 1) zeros g Hlast)
    as (gameId & [= <-] & Hstored).
  exact Hstored.
Defined.



(** ** Calling twice *)

Lemma list_find_same_ids (ps ps' : list Player) x i p :
  Player.id <$> ps' = Player.id <$> ps →
  list_find (λ q, Player.id q = x) ps = Some (i, p) →
  ∃ p', list_find (λ q, Player.id q = x) ps' = Some (i, p') ∧ ps' !! i = Some p'.
Proof.
  intros Hids Hfind.
  assert (list_find (λ y, y = x) (Player.id <$> ps) = Some (i, Player.id p)) as Hid.
  { rewrite list_find_fmap.
    change ((λ y, y = x) ∘ Player.id) with (λ q, Player.id q = x). by rewrite Hfind. }
  rewrite <- Hids, list_find_fmap in Hid.
  change ((λ y, y = x) ∘ Player.id) with (λ q, Player.id q = x) in Hid.
  destruct (list_find (λ q, Player.id q = x) ps') as [[j p']|] eqn:Hfind'; [|done].
  injection Hid as -> _. exists p'. split; [done|].
  by apply list_find_Some in Hfind' as (? & _).
Qed.

(** X19. A resolved bluff call neither clears the bid nor moves the turn (the
    new round does, 3000 ms later): in the session it leaves, the same call
    passes every check of [callBluff] again, with the challenger and the
    bidder at the same indices, so a second call before the new round is
    resolved like the first. *)
Theorem callBluff_can_be_repeated games gameId game bid playerId ci challenger bi bidder r :
  games !! gameId = Some game →
  Game.currentBid game = Some bid →
  list_find (λ p, Player.id p = playerId) (Game.players game) = Some (ci, challenger) →
  Player.isCurrentTurn challenger = true →
  list_find (λ p, Player.id p = Bid.playerId bid) (Game.players game) = Some (bi, bidder) →
  ∃ game' challenger' bidder',
    out_games (callBluff games gameId playerId r) !! gameId = Some game'
    ∧ Game.currentBid game' = Some bid
    ∧ list_find (λ p, Player.id p = playerId) (Game.players game') = Some (ci, challenger')
    ∧ Player.isCurrentTurn challenger' = true
    ∧ list_find (λ p, Player.id p = Bid.playerId bid) (Game.players game')
      = Some (bi, bidder').
Proof.
  intros Hgame Hbid Hfind Hturn Hbidder.
  unfold callBluff, found. rewrite Hgame.
  rewrite (callBluff_on_settles game gameId bid playerId ci challenger bi bidder r)
    by done.
  set (li := if bool_decide _ then ci else bi).
  set (loser := if bool_decide _ then challenger else bidder).
  assert (Game.players game !! li = Some loser) as Hli.
  { unfold li, loser. destruct (bool_decide _).
    - by apply list_find_Some in Hfind as (? & _).
    - by apply list_find_Some in Hbidder as (? & _). }
  destruct (settleBluff_shape (Game.set_showDice true game) bid
              (totalMatching (Bid.value bid) (Game.players game)) li loser playerId
              (TNewRound gameId playerId (Player.name challenger)) r Hli)
    as (Hids & Hturns & _ & Hsame & _).
  set (game' := eff_game _) in *.
  unfold ids, turns in Hids, Hturns. cbn [Game.players Game.set_showDice] in Hids, Hturns.
  destruct (list_find_same_ids _ _ _ _ _ Hids Hfind) as (challenger' & Hfind' & Hci').
  destruct (list_find_same_ids _ _ _ _ _ Hids Hbidder) as (bidder' & Hbidder' & _).
  exists game', challenger', bidder'. cbn [out_games commit eff_game].
  split; [apply lookup_insert_eq|]. split; [by rewrite Hsame|].
  split; [done|]. split; [|done].
  apply list_find_Some in Hfind as (Hci & _).
  assert ((Player.isCurrentTurn <$> Game.players game') !! ci
          = (Player.isCurrentTurn <$> Game.players game) !! ci) as Hflag
    by (by rewrite Hturns).
  rewrite !list_lookup_fmap, Hci', Hci in Hflag. cbn in Hflag. congruence.
Qed.

Lemma callBluff_can_be_repeated_witness :
  let s := run active [ann_bids 1 1; bob_bids 2 1; ann_calls] in
  diceCounts <$> session s "100000" = Some [4; 5]
  ∧ diceCounts <$> out_games (callBluff (games s) "100000" "2000000" zeros) !! "100000"
    = Some [3; 5]
  ∧ ∃ game',
      out_games (callBluff (games (run active [ann_bids 1 1; bob_bids 2 1]))
                   "100000" "2000000" zeros) !! "100000" = Some game'
      ∧ Game.currentBid game' = Some (Bid.mk 2 1 "3000000").
Proof.
  intros s. split; [vm_compute; reflexivity|]. split; [vm_compute; reflexivity|].
  destruct (callBluff_can_be_repeated (games (run active [ann_bids 1 1; bob_bids 2 1]))
              "100000"
              (Game.mk "100000" [ann; bob] (Some (Bid.mk 2 1 "3000000")) true false None
                 false)
              (Bid.mk 2 1 "3000000") "2000000" O ann 1%nat bob zeros)
    as (game' & _ & _ & Hgame' & Hbid & _); try reflexivity.
  exists game'. exact (conj Hgame' Hbid).
Defined.

(** ** Drawing the dice *)

(** X20. [Dice] draws a face from 1 to 6 with exactly that many dots, each
    at a position that [getPositionClass] knows (no dot falls to the empty
    default class) and no two at the same place; for any other value it
    throws, [dotPositions[value]] being undefined. *)
Theorem Dice_shows_its_value value size :
  (1 ≤ value ≤ 6 →
   ∃ positions die,
     dotPositions value = Some positions
     ∧ Dice value size = Some die
     ∧ Z.of_nat (length (dots die)) = value
     ∧ NoDup (getPositionClass <$> positions)
     ∧ ("" ∉ getPositionClass <$> positions)
     ∧ NoDup (dots die))
  ∧ (¬ 1 ≤ value ≤ 6 → Dice value size = None).
Proof.
  split.
  - intros Hvalue.
    assert (value = 1 ∨ value = 2 ∨ value = 3 ∨ value = 4 ∨ value = 5 ∨ value = 6)
      as [->|[->|[->|[->|[->| ->]]]]] by lia;
      (eexists _, _; split; [reflexivity|]; split; [reflexivity|];
       split; [reflexivity|]; destruct size;
       (split; [|split]); apply (bool_decide_unpack _); vm_compute; exact I).
  - intros Hvalue. unfold Dice.
    destruct value as [|v|v]; [done| |done].
    destruct v as [[[v|v|]|[v|v|]|]|[[v|v|]|[v|v|]|]|]; try done; lia.
Qed.

Lemma Dice_shows_its_value_witness :
  length <$> (dots <$> Dice 5 md) = Some 5%nat ∧ Dice 7 md = None ∧ Dice 0 md = None.
Proof.
  destruct (Dice_shows_its_value 5 md) as [Hface _].
  destruct (Dice_shows_its_value 7 md) as [_ Hseven].
  destruct (Dice_shows_its_value 0 md) as [_ Hzero].
  split; [reflexivity|]. split; [apply Hseven; lia|apply Hzero; lia].
Defined.

Lemma Dice_face value size :
  1 ≤ value ≤ 6 → ∃ die, Dice value size = Some die
                         ∧ Z.of_nat (length (dots die)) = value.
Proof.
  intros Hvalue.
  assert (value = 1 ∨ value = 2 ∨ value = 3 ∨ value = 4 ∨ value = 5 ∨ value = 6)
    as [->|[->|[->|[->|[->| ->]]]]] by lia; by eexists.
Qed.

Lemma shown_hand hand :
  (∀ d, d ∈ hand → 1 ≤ d ≤ 6) →
  ∃ boxes, mapM (λ value, Shown <$> Dice value sm) hand = Some boxes
           ∧ pips <$> boxes = Some <$> hand.
Proof.
  induction hand as [|d hand IH]; intros Hfaces; [by exists []|].
  destruct IH as (boxes & Hboxes & Hpips).
  { intros d' Hd'. apply Hfaces. by right. }
  destruct (Dice_face d sm) as (die & Hdie & Hdots); [apply Hfaces; by left|].
  exists (Shown die :: boxes). split.
  - cbn. rewrite Hdie. cbn. by rewrite Hboxes.
  - cbn. by rewrite Hdots, Hpips.
Qed.

(** X21. The board can always draw what the server holds: for a participant
    of a session of a reachable state, and whoever looks, [renderPlayerDice]
    does not throw and draws as many boxes as the participant has dice (none
    when the count is below 1), hidden or not; when the dice are the
    viewer's own or revealed, the boxes show, in order, the faces of the
    hand, and otherwise every box is the grey square. *)
Theorem board_draws_every_hand s gameId game p viewer :
  reachable s → games s !! gameId = Some game → p ∈ Game.players game →
  ∃ boxes,
    renderPlayerDice game viewer p = Some boxes
    ∧ length boxes = Z.to_nat (Player.diceCount p)
    ∧ (Player.id p = viewer ∨ Game.showDice game = true →
       pips <$> boxes = Some <$> Player.dice p)
    ∧ (Player.id p ≠ viewer → Game.showDice game = false →
       ∀ b, b ∈ boxes → b = Hidden).
Proof.
  intros Hreach Hgame Hp.
  assert (hand_fits p) as [Hlength Hfaces].
  { by apply (Forall_forall hand_fits (Game.players game));
      [apply (reachable_hands_fit s gameId)|]. }
  destruct (shown_hand (Player.dice p) Hfaces) as (boxes & Hboxes & Hpips).
  unfold renderPlayerDice.
  destruct (bool_decide (Player.id p = viewer) || Game.showDice game) eqn:Hshown.
  - exists boxes. split; [done|]. split; [|split; [done|]].
    + rewrite <- Hlength, <- (length_fmap Some (Player.dice p)), <- Hpips.
      by rewrite length_fmap.
    + intros Hother Hhidden. rewrite Hhidden, orb_false_r in Hshown.
      by apply bool_decide_eq_true in Hshown.
  - apply orb_false_iff in Hshown as [Hother%bool_decide_eq_false Hhidden].
    eexists. split; [done|]. split; [apply length_replicate|]. split.
    + intros [?| ?]; congruence.
    + intros _ _ b Hb. by apply elem_of_replicate in Hb as [-> _].
Qed.

Lemma board_draws_every_hand_witness :
  ∃ boxes,
    renderPlayerDice active_game "3000000" ann = Some boxes
    ∧ boxes = replicate 5 Hidden.
Proof.
  assert (ann ∈ Game.players active_game) as Hann by (apply list_elem_of_lookup; by exists O).
  assert (games active !! "100000" = Some active_game) as Hgame
    by (vm_compute; reflexivity).
  destruct (board_draws_every_hand active "100000" active_game ann "3000000"
              (reachable_run _ _ reachable_init) Hgame Hann)
    as (boxes & Hboxes & _).
  exists boxes. split; [exact Hboxes|].
  vm_compute in Hboxes. by injection Hboxes as <-.
Defined.

(** ** Somebody holds the turn *)

Lemma switchTurns_some playerId ps i p :
  list_find (λ q, Player.id q = playerId) ps = Some (i, p) →
  ∃ j, (Player.isCurrentTurn <$> (switchTurns playerId ps).2) !! j = Some true.
Proof.
  intros Hfind. rewrite (switchTurns_next_index _ _ _ _ Hfind). cbn [snd].
  apply list_find_Some in Hfind as (Hi & _). apply lookup_lt_Some in Hi.
  assert ((i + 1) `mod` length ps < length ps)%nat as Hnext
    by (apply Nat.mod_upper_bound; lia).
  destruct (lookup_lt_is_Some_2 ps _ Hnext) as [q Hq].
  exists ((i + 1) `mod` length ps)%nat.
  rewrite list_lookup_fmap, list_lookup_imap, Hq. cbn.
  by rewrite bool_decide_eq_true_2.
Qed.

Lemma some_turn_makeBid game gameId playerId count value :
  some_turn game → some_turn (eff_game (makeBid_on game gameId playerId count value)).
Proof.
  intros Hturn. unfold makeBid_on.
  destruct (list_find _ _) as [[i p]|] eqn:Hfind; [|done].
  destruct (negb _); [done|]. destruct (invalidBid _ _ _); [done|].
  cbn [Game.players Game.set_currentBid].
  destruct (switchTurns_some playerId (Game.players game) i p Hfind) as [j Hj].
  destruct (switchTurns playerId (Game.players game)) as [next ps]. by exists j.
Qed.

Lemma some_turn_computerBids game ci computerPlayer count value :
  computerToMove game = Some (ci, computerPlayer) →
  some_turn (eff_game (computerBids game computerPlayer count value)).
Proof.
  intros Hci%computerToMove_lookup. unfold computerBids.
  cbn [Game.players Game.set_currentBid].
  destruct (list_find_elem_of (λ q, Player.id q = Player.id computerPlayer)
              (Game.players game) computerPlayer) as [[i p] Hfind];
    [by eapply list_elem_of_lookup_2|done|].
  destruct (switchTurns_some _ (Game.players game) i p Hfind) as [j Hj].
  destruct (switchTurns _ (Game.players game)) as [next ps]. by exists j.
Qed.

Lemma some_turn_settleBluff game bid total li loser callerId newRound r :
  Game.players game !! li = Some loser →
  some_turn game →
  some_turn (eff_game (settleBluff (Game.set_showDice true game) bid total li loser
                         callerId newRound r)).
Proof.
  intros Hli [i Hi].
  destruct (settleBluff_shape (Game.set_showDice true game) bid total li loser callerId
              newRound r Hli) as (_ & Hturns & _).
  exists i. by rewrite Hturns.
Qed.

Lemma some_turn_newRound challengerId game :
  challengerId ∈ ids game → some_turn (newRound_on challengerId game).
Proof.
  intros (i & Hi)%list_elem_of_lookup_1.
  destruct (newRound_on_shape challengerId game) as (_ & _ & _ & _ & Hturns).
  exists i. rewrite Hturns. unfold ids in Hi.
  rewrite list_lookup_fmap in Hi. rewrite list_lookup_fmap.
  destruct (Game.players game !! i) as [p|]; [|done].
  injection Hi as Hid. cbn. by rewrite bool_decide_eq_true_2.
Qed.

(** The timer of a resolved bluff call gives the turn to the challenger, who
    is in the session. *)
Lemma callBluff_on_turn_timer game gameId playerId r t :
  t ∈ eff_timers (callBluff_on game gameId playerId r) →
  timer_turn t = Some playerId ∧ playerId ∈ ids game.
Proof.
  unfold callBluff_on.
  destruct (Game.currentBid game) as [bid|]; [|by intros ?%elem_of_nil].
  cbn [Game.players Game.set_showDice].
  destruct (list_find (λ p, Player.id p = playerId) _)
    as [[ci challenger]|] eqn:Hfind; [|by intros ?%elem_of_nil].
  destruct (negb _); [by intros ?%elem_of_nil|].
  destruct (list_find (λ p, Player.id p = Bid.playerId bid) _)
    as [[bi bidder]|]; [|by intros ?%elem_of_nil].
  apply list_find_Some in Hfind as (Hci & Hid & _).
  assert (playerId ∈ ids game) as Hin.
  { apply list_elem_of_lookup. exists ci. unfold ids.
    by rewrite list_lookup_fmap, Hci, <- Hid. }
  destruct (_ >=? _); intros ->%settleBluff_timers; cbn [timer_turn];
    by rewrite Hid.
Qed.

(** The timer of a bluff call of the computer gives the turn to the
    computer, which is in the session. *)
Lemma computerMove_on_turn_timer game gameId r t playerId :
  t ∈ eff_timers (computerMove_on game gameId r) →
  timer_turn t = Some playerId → playerId ∈ ids game.
Proof.
  unfold computerMove_on.
  destruct (Game.currentBid game) as [bid|];
    (destruct (computerToMove game) as [[ci computerPlayer]|] eqn:Hmove;
       [|by intros ?%elem_of_nil]).
  - apply computerToMove_lookup in Hmove.
    assert (Player.id computerPlayer ∈ ids game) as Hin.
    { apply list_elem_of_lookup. exists ci. unfold ids.
      by rewrite list_lookup_fmap, Hmove. }
    destruct (computerCallsBluff _ _ _).
    + cbn [Game.players Game.set_showDice].
      destruct (list_find _ _) as [[bi bidder]|]; [|by intros ?%elem_of_nil].
      destruct (_ >=? _); intros ->%settleBluff_timers [= <-]; exact Hin.
    + destruct (ensureHigher _ _) as [newCount newValue].
      rewrite computerBids_timers. by intros ?%elem_of_nil.
  - destruct (randomBelow 3 r) as [c r1]. destruct (randomBelow 6 r1) as [v r2].
    rewrite computerBids_timers. by intros ?%elem_of_nil.
Qed.

Lemma some_turn_computerMove game gameId r :
  some_turn game → some_turn (eff_game (computerMove_on game gameId r)).
Proof.
  intros Hturn.
  destruct (computerMove_on_cases game gameId r)
    as [->|[->|[(ci & computerPlayer & c & v & Hmove & ->)
                |(bid & total & li & loser & callerId & newRound & _ & Hli & ->)]]].
  - done.
  - done.
  - by eapply some_turn_computerBids.
  - by apply some_turn_settleBluff.
Qed.

Lemma some_turn_callBluff game gameId playerId r :
  some_turn game → some_turn (eff_game (callBluff_on game gameId playerId r)).
Proof.
  intros Hturn.
  destruct (callBluff_on_cases game gameId playerId r)
    as [[message ->]|[[message ->]
                     |(bid & total & li & loser & callerId & newRound & _ & Hli & ->)]].
  - done.
  - done.
  - by apply some_turn_settleBluff.
Qed.

Lemma some_turn_seat game q :
  some_turn game → some_turn (Game.set_players (Game.players game ++ [q]) game).
Proof.
  intros [i Hi]. exists i. unfold turns in *. cbn [Game.players Game.set_players].
  rewrite fmap_app. by apply lookup_app_l_Some.
Qed.

Lemma ids_seat game q :
  ids game ⊆ ids (Game.set_players (Game.players game ++ [q]) game).
Proof.
  unfold ids. cbn [Game.players Game.set_players]. rewrite fmap_app.
  intros x Hx. apply elem_of_app. by left.
Qed.

Lemma ids_eq_subseteq (g g' : Game) : ids g' = ids g → ids g ⊆ ids g'.
Proof. by intros ->. Qed.

(** One step that is not a disconnect, seen from a session in which somebody
    holds the turn and whose pending timers give the turn to participants:
    somebody holds the turn afterwards, nobody has left, and the timers the
    step schedules give the turn to participants. *)
Lemma calm_session_step pending gameId game a game' ts :
  session_step pending gameId game a game' ts →
  (∀ socket r, a ≠ Receive (Disconnect socket) r) →
  (∀ t playerId, t ∈ pending → timer_game t = gameId → timer_turn t = Some playerId →
                 playerId ∈ ids game) →
  some_turn game →
  some_turn game'
  ∧ ids game ⊆ ids game'
  ∧ ∀ t playerId, t ∈ ts → timer_turn t = Some playerId → playerId ∈ ids game'.
Proof.
  intros Hstep Hstays Hpending Hturn.
  destruct Hstep as [a|socket playerName r|socket r
    |socket playerId count value r|socket playerId r|socket r|socket r game' Hleft
    |n t r Ht Hgid].
  - split; [done|]. split; [done|]. by intros t playerId ?%elem_of_nil.
  - destruct (joinGame_on_shape game socket gameId playerName r)
      as [->|(q & -> & _)].
    + split; [done|]. split; [done|]. by intros t playerId ?%elem_of_nil.
    + split; [by apply some_turn_seat|]. split; [apply ids_seat|].
      by intros t playerId ?%elem_of_nil.
  - assert (ids (Game.set_players
                   (alter (Player.set_isCurrentTurn true) O (Game.players game))
                   (Game.set_gameStarted true game)) = ids game) as Hids.
    { unfold ids. cbn [Game.players Game.set_players Game.set_gameStarted].
      by destruct (Game.players game). }
    destruct (startGame_on_shape game) as [->| ->].
    + split; [done|]. split; [done|]. by intros t playerId ?%elem_of_nil.
    + split; [|split; [by apply ids_eq_subseteq|by intros t playerId ?%elem_of_nil]].
      destruct Hturn as [i Hi]. unfold turns in *.
      cbn [Game.players Game.set_players Game.set_gameStarted].
      destruct (Game.players game) as [|p ps]; [done|]. by exists O.
  - split; [by apply some_turn_makeBid|]. split.
    + destruct (makeBid_on_shape game gameId playerId count value)
        as [[-> _]|(Hids & _)]; [done|by apply ids_eq_subseteq].
    + by intros t pid ->%makeBid_on_timers.
  - assert (ids (eff_game (callBluff_on game gameId playerId r)) = ids game) as Hids.
    { destruct (callBluff_on_shape game gameId playerId r)
        as [[(Hps & _) _]|(li & loser & _ & _ & Hids & _)]; [|done].
      unfold ids. by rewrite Hps. }
    split; [by apply some_turn_callBluff|]. split; [by apply ids_eq_subseteq|].
    intros t pid [Hpid Hin]%callBluff_on_turn_timer. rewrite Hpid. intros [= <-].
    by rewrite Hids.
  - destruct (addComputer_on_shape game r) as [->|(q & -> & _)].
    + split; [done|]. split; [done|]. by intros t playerId ?%elem_of_nil.
    + split; [by apply some_turn_seat|]. split; [apply ids_seat|].
      by intros t playerId ?%elem_of_nil.
  - by destruct (Hstays socket r).
  - destruct t as [gid|gid challengerId challengerName|gid computerId];
      cbn [fire_on eff_game eff_timers].
    + assert (ids (eff_game (computerMove_on game gid r)) = ids game) as Hids.
      { destruct (computerMove_on_shape game gid r)
          as [[(Hps & _) _]|[[(Hids & _) _]|(li & loser & _ & _ & Hids & _)]];
          [|done..].
        unfold ids. by rewrite Hps. }
      split; [by apply some_turn_computerMove|]. split; [by apply ids_eq_subseteq|].
      intros t pid Ht' Hpid. rewrite Hids.
      by apply (computerMove_on_turn_timer game gid r t).
    + destruct (newRound_on_shape challengerId game) as (Hids & _).
      split; [|split; [by apply ids_eq_subseteq|]].
      * apply some_turn_newRound.
        by eapply (Hpending (TNewRound gid challengerId challengerName));
          [eapply list_elem_of_lookup_2|..].
      * intros t pid. case_bool_decide; [|by intros ?%elem_of_nil].
        by intros ->%list_elem_of_singleton.
    + destruct (newRound_on_shape computerId game) as (Hids & _).
      split; [|split; [by apply ids_eq_subseteq|]].
      * apply some_turn_newRound.
        by eapply (Hpending (TComputerNewRound gid computerId));
          [eapply list_elem_of_lookup_2|..].
      * by intros t pid ->%list_elem_of_singleton.
Qed.

(** Every timer pending after a step was pending before, or is one of the
    timers the step schedules for its session. *)
Lemma step_new_timer s a t' :
  t' ∈ timers (step s a).1 →
  t' ∈ timers s
  ∨ ∃ game game' ts,
      games s !! timer_game t' = Some game
      ∧ games (step s a).1 !! timer_game t' = Some game'
      ∧ session_step (timers s) (timer_game t') game a game' ts
      ∧ t' ∈ ts.
Proof.
  destruct a as [c r|n r]; cbn [step fst timers games].
  - intros [Hold|Hnew]%elem_of_app; [by left|]. right.
    destruct c as [socket playerName|socket gid playerName|socket gid
                  |socket gid playerId count value|socket gid playerId
                  |socket gid|socket]; cbn [handle] in *.
    + unfold createGame in Hnew. destruct (generateGameId r) in Hnew.
      by apply elem_of_nil in Hnew.
    + apply found_timers in Hnew as (game & _ & Hnew).
      destruct (quiet_handlers_schedule_nothing game socket gid playerName r) as (Hq & _).
      rewrite Hq in Hnew. by apply elem_of_nil in Hnew.
    + apply found_timers in Hnew as (game & _ & Hnew).
      destruct (quiet_handlers_schedule_nothing game socket gid "" r) as (_ & Hq & _).
      rewrite Hq in Hnew. by apply elem_of_nil in Hnew.
    + unfold makeBid in *. apply found_timers in Hnew as (game & Hgame & Hnew).
      pose proof (makeBid_on_timers _ _ _ _ _ _ Hnew) as Ht'.
      assert (timer_game t' = gid) as Hgid by (by rewrite Ht').
      rewrite Hgid. eexists game, _, _. split; [done|].
      split; [by rewrite found_lookup, decide_True, Hgame|].
      split; [by constructor|done].
    + unfold callBluff in *. apply found_timers in Hnew as (game & Hgame & Hnew).
      pose proof (callBluff_on_timers _ _ _ _ _ Hnew) as Hgid. rewrite Hgid.
      eexists game, _, _. split; [done|].
      split; [by rewrite found_lookup, decide_True, Hgame|].
      split; [by constructor|done].
    + apply found_timers in Hnew as (game & _ & Hnew).
      destruct (quiet_handlers_schedule_nothing game socket gid "" r) as (_ & _ & Hq).
      rewrite Hq in Hnew. by apply elem_of_nil in Hnew.
    + by apply elem_of_nil in Hnew.
  - destruct (timers s !! n) as [t|] eqn:Ht; cbn [fst timers games]; [|by left].
    intros [Hold|Hnew]%elem_of_app; [left; by eapply list_elem_of_delete_inv|].
    right. unfold fire in *.
    destruct (games s !! timer_game t) as [game|] eqn:Hgame; cbn in Hnew;
      [|by apply elem_of_nil in Hnew].
    pose proof (fire_on_timers _ _ _ _ Hnew) as Hgid. rewrite Hgid.
    eexists game, _, _. split; [done|].
    split; [cbn; by rewrite lookup_insert_eq|].
    split; [by constructor|done].
Qed.

Lemma calm_orderly s : calm_reachable s → orderly_reachable s.
Proof.
  induction 1 as [|s a _ IH [Horderly _]]; [constructor|by constructor].
Qed.

(** In a calm run somebody holds the turn in every session, and the pending
    timers give the turn to participants. *)
Lemma calm_invariant s :
  calm_reachable s →
  (∀ gameId game, games s !! gameId = Some game → some_turn game) ∧ timers_known s.
Proof.
  induction 1 as [|s a Hreach [Hsessions Htimers] [Horderly Hstays]].
  - split.
    + intros gameId game Hgame. unfold init in Hgame. cbn [games] in Hgame.
      by rewrite lookup_empty in Hgame.
    + intros t g playerId Ht. by apply elem_of_nil in Ht.
  - assert (∀ gameId game t playerId,
              games s !! gameId = Some game → t ∈ timers s → timer_game t = gameId →
              timer_turn t = Some playerId → playerId ∈ ids game) as Hpending.
    { intros gameId game t playerId Hgame Ht <- Hpid. by apply (Htimers t). }
    split.
    + intros gameId game' Hgame'.
      destruct (step_session s a gameId game' Hgame')
        as [(socket & playerName & r & _ & _ & ->)|(game & ts & Hgame & Hstep)].
      * exists O. unfold turns, creator. cbn [Game.players].
        destruct (randomId 7 _) as [playerId r1]. by destruct (rollDice 5 r1).
      * apply (calm_session_step (timers s) gameId game a game' ts); try done.
        -- intros t pid. by apply (Hpending gameId game t pid).
        -- by apply (Hsessions gameId).
    + intros t' g' playerId Ht' Hg' Hpid.
      destruct (step_new_timer s a t' Ht')
        as [Hold|(game & game' & ts & Hgame & Hgame' & Hstep & Hts)].
      * destruct (step_session s a (timer_game t') g' Hg')
          as [(socket & playerName & r & -> & Hgid & _)|(game & ts & Hgame & Hstep)].
        -- destruct Horderly as [_ Hfresh]. by destruct (Hfresh t' Hold).
        -- destruct (calm_session_step (timers s) (timer_game t') game a g' ts Hstep
                       Hstays (λ t pid, Hpending _ game t pid Hgame)
                       (Hsessions _ _ Hgame)) as (_ & Hkept & _).
           apply Hkept. by apply (Htimers t').
      * rewrite Hgame' in Hg'. injection Hg' as <-.
        destruct (calm_session_step (timers s) (timer_game t') game a game' ts Hstep
                    Hstays (λ t pid, Hpending _ game t pid Hgame)
                    (Hsessions _ _ Hgame)) as (_ & _ & Hscheduled).
        by apply (Hscheduled t').
Qed.

Lemma calm_reachable_run s actions :
  calm_reachable s → calm_run s actions → calm_reachable (run s actions).
Proof.
  revert s. induction actions as [|a actions IH]; intros s Hs Hrun; [done|].
  destruct Hrun as [Ha Hrest]. apply IH; [by constructor|done].
Qed.

(** X22. As long as nobody disconnects, the turn is never lost: in every
    state of an orderly run without a [disconnect], exactly one participant
    of every session holds the turn, before the start, in play, between a
    bluff call and its new round, and after the game is over. *)
Theorem turn_is_never_lost s gameId game :
  calm_reachable s →
  games s !! gameId = Some game →
  exactly_one_turn game.
Proof.
  intros Hreach Hgame.
  destruct (calm_invariant s Hreach) as [Hsome _].
  destruct (orderly_invariant s (calm_orderly s Hreach)) as [Htidy _].
  destruct (Hsome gameId game Hgame) as [i Hi].
  destruct (Htidy gameId game Hgame) as (_ & Hsingle & _).
  unfold turns in Hi. rewrite list_lookup_fmap in Hi.
  destruct (Game.players game !! i) as [p|] eqn:Hp; [|done].
  injection Hi as Hturn. exists i, p. split; [done|]. split; [done|].
  intros j q Hq Hturn'. apply Hsingle; unfold turns; rewrite list_lookup_fmap.
  - by rewrite Hq, <- Hturn'.
  - by rewrite Hp, <- Hturn.
Qed.

Lemma turn_is_never_lost_witness :
  calm_reachable active
  ∧ games active !! "100000" = Some active_game
  ∧ exactly_one_turn active_game.
Proof.
  assert (calm_reachable active) as Hreach.
  { unfold active. apply calm_reachable_run; [constructor|].
    split; [|split; [|split; [|exact I]]]; (split; [|by intros socket r]).
    - split; [vm_compute; reflexivity|]. by intros t ?%elem_of_nil.
    - intros game Hgame. vm_compute in Hgame. injection Hgame as <-.
      vm_compute. intros Hin. inversion Hin as [|? ? ? Hnil]; inversion Hnil.
    - intros game Hgame. vm_compute in Hgame. by injection Hgame as <-. }
  assert (games active !! "100000" = Some active_game) as Hgame
    by (vm_compute; reflexivity).
  split; [exact Hreach|]. split; [exact Hgame|].
  exact (turn_is_never_lost active "100000" active_game Hreach Hgame).
Defined.
